(** * duoland/chatapi, package wechat: the WxWork application client

    A shallow embedding of [wechat/wxwork_app.go]: the cached access token
    of a [WxWorkApp], its refresh against the token endpoint, the two
    request dispatchers [fireRequest] and [uploadFile], and the seven
    operations built on them.

    The program talks to a clock and to an HTTP server.  Both live in an
    explicit [World]: a clock reading, the replies the server is going to
    give (in the order the client asks) and the log of the requests the
    client has sent.  Every Go method of [*WxWorkApp] becomes a function in
    the state monad over the receiver and the world.  Goroutines that
    share one application are a step function over configurations
    ([Module Goroutines]), one step per access to what they share. *)

From Stdlib Require Import ZArith NArith Bool List Ascii String Lia.
From Stdlib Require Import DecimalString.
From Stdlib Require DecimalPos.
From stdpp Require Import base list.
Import ListNotations.

#[local] Open Scope string_scope.
#[local] Open Scope Z_scope.

(** ** Go scalars *)

(** Go's [int64] (and [int], [time.Duration]) as a [Z] kept in range by
    [wrap64], the two's complement wrap-around of a 64-bit result. *)
Definition wrap64 (z : Z) : Z := (z + 2 ^ 63) mod 2 ^ 64 - 2 ^ 63.

Definition inInt64 (z : Z) : Prop := - 2 ^ 63 <= z < 2 ^ 63.

(** [fmt.Sprintf("%d", z)]. *)
Definition formatInt (z : Z) : string := NilZero.string_of_int (Z.to_int z).

(** ** package time

    An instant is its distance from the Unix epoch in nanoseconds; a
    [Duration] is an [int64] count of nanoseconds.  Instants are not
    bounded: the representation limits of [time.Time] (hundreds of years
    away from the monotonic clock's origin) are outside the model. *)
Definition Time := Z.
Definition Duration := Z.

Definition Second : Duration := 1000000000.

(** [d * e] on [time.Duration]: an [int64] product. *)
Definition mulDuration (d e : Duration) : Duration := wrap64 (d * e).

(** [t.Add(d)]. *)
Definition Add (t : Time) (d : Duration) : Time := t + d.

(** [t.After(u)]: whether [t] is after [u]. *)
Definition After (t u : Time) : bool := u <? t.

(** The zero [time.Time], January 1 of year 1. *)
Definition zeroTime : Time := - 62135596800 * Second.

(** ** package strconv *)

Definition digitOf (c : ascii) : option Z :=
  let n := Z.of_nat (nat_of_ascii c) in
  if (48 <=? n) && (n <=? 57) then Some (n - 48) else None.

(** The value of a string of decimal digits, [None] when a byte is not a
    digit. *)
Fixpoint digitsValue (acc : Z) (s : string) : option Z :=
  match s with
  | EmptyString => Some acc
  | String c s' =>
      match digitOf c with
      | Some d => digitsValue (10 * acc + d) s'
      | None => None
      end
  end.

Definition quote (s : string) : string :=
  String "034" (s ++ String "034" EmptyString).

Definition syntaxError (s : string) : string :=
  "strconv.ParseInt: parsing " ++ quote s ++ ": invalid syntax".

Definition rangeError (s : string) : string :=
  "strconv.ParseInt: parsing " ++ quote s ++ ": value out of range".

(** [strconv.ParseInt(s, 10, 64)]: the value and the error.  A syntax
    error comes with value 0, a range error with the nearest [int64]. *)
Definition ParseInt (s : string) : Z * option string :=
  let '(neg, body) :=
    match s with
    | String "+" s' => (false, s')
    | String "-" s' => (true, s')
    | _ => (false, s)
    end in
  match body with
  | EmptyString => (0, Some (syntaxError s))
  | _ =>
      match digitsValue 0 body with
      | None => (0, Some (syntaxError s))
      | Some un =>
          if negb neg && (2 ^ 63 <=? un) then (2 ^ 63 - 1, Some (rangeError s))
          else if neg && (2 ^ 63 <? un) then (- 2 ^ 63, Some (rangeError s))
          else (if neg then - un else un, None)
      end
  end.

(** ** package net/url *)

Definition hexDigit (n : N) : ascii :=
  ascii_of_N (if (n <? 10)%N then 48 + n else 55 + n).

(** [shouldEscape(c, encodeQueryComponent)]: everything but letters,
    digits and [-_.~] is escaped. *)
Definition shouldEscape (c : ascii) : bool :=
  let n := N_of_ascii c in
  negb (((97 <=? n) && (n <=? 122)) || ((65 <=? n) && (n <=? 90))
        || ((48 <=? n) && (n <=? 57))
        || (n =? 45) || (n =? 95) || (n =? 46) || (n =? 126))%N.

(** [url.QueryEscape]. *)
Fixpoint QueryEscape (s : string) : string :=
  match s with
  | EmptyString => EmptyString
  | String c s' =>
      if Ascii.eqb c " " then String "+" (QueryEscape s')
      else if shouldEscape c then
        String "%" (String (hexDigit (N_of_ascii c / 16))
                      (String (hexDigit (N_of_ascii c mod 16)) (QueryEscape s')))
      else String c (QueryEscape s')
  end.

(** [url.Values], a [map[string][]string], kept sorted by key, which is
    the order [Encode] walks it in. *)
Definition Values := list (string * list string).

(** [v.Add(key, value)]: appends to the values of [key]. *)
Fixpoint Values_Add (v : Values) (key value : string) : Values :=
  match v with
  | [] => [(key, [value])]
  | (k, vs) :: v' =>
      if String.eqb k key then (k, vs ++ [value])%list :: v'
      else if String.ltb key k then (key, [value]) :: (k, vs) :: v'
      else (k, vs) :: Values_Add v' key value
  end.

(** [v.Encode()]: [key=value] pairs joined by [&], keys in sorted
    order, keys and values escaped. *)
Definition Encode (v : Values) : string :=
  String.concat "&"
    (flat_map (fun kv : string * list string =>
                 map (fun x => QueryEscape (fst kv) ++ "=" ++ QueryEscape x) (snd kv))
              v).

(** [stringContainsCTLByte]: a byte below 0x20 or 0x7f. *)
Fixpoint stringContainsCTLByte (s : string) : bool :=
  match s with
  | EmptyString => false
  | String c s' =>
      ((N_of_ascii c <? 32)%N || (N_of_ascii c =? 127)%N) || stringContainsCTLByte s'
  end.


(** ** package encoding/json

    Request bodies are Go values behind an [interface{}]; [GoFunc] stands
    for the values [json.Marshal] has no encoding for (functions,
    channels). *)
#[warnings="-register-all"]
Inductive GoValue : Type :=
| GoString (s : string)
| GoInt (n : Z)
| GoStrings (l : list string)
| GoMap (kvs : list (string * GoValue))
| GoFunc.

Fixpoint encodable (v : GoValue) : bool :=
  match v with
  | GoMap kvs => forallb (fun kv => encodable (snd kv)) kvs
  | GoFunc => false
  | _ => true
  end.

(** What travels as a request body.  The bytes of a JSON text are
    represented by the value they encode; a multipart form by its one
    file field. *)
Inductive Payload : Type :=
| NoBytes
| JSONText (v : GoValue)
| FormFile (fieldname filename : string) (content : list Byte.byte).

(** [json.Marshal(v)]: the bytes and the error; no bytes on error. *)
Definition Marshal (v : GoValue) : Payload * option string :=
  if encodable v then (JSONText v, None)
  else (NoBytes, Some "json: unsupported type").

(** [WxWorkAppGroup]. *)
Record WxWorkAppGroup : Type := {
  GroupChatID : string;   (* chatid *)
  GroupName : string;     (* name *)
  GroupOwner : string;    (* owner *)
  GroupUserList : list string  (* userlist *)
}.

(** The members a response document of this API can carry, by JSON key;
    a key the document lacks has the zero value of its Go type. *)
Record Fields : Type := {
  errcode : Z;
  errmsg : string;
  access_token : string;
  expires_in : Z;
  invaliduser : string;
  invalidparty : string;
  invalidtag : string;
  chatid : string;
  chat_info : WxWorkAppGroup;
  type_ : string;
  media_id : string;
  created_at : string;
  url : string
}.

Definition zeroGroup : WxWorkAppGroup :=
  {| GroupChatID := EmptyString; GroupName := EmptyString;
     GroupOwner := EmptyString; GroupUserList := [] |}.

Definition zeroFields : Fields :=
  {| errcode := 0; errmsg := EmptyString; access_token := EmptyString;
     expires_in := 0; invaliduser := EmptyString; invalidparty := EmptyString;
     invalidtag := EmptyString; chatid := EmptyString; chat_info := zeroGroup;
     type_ := EmptyString; media_id := EmptyString; created_at := EmptyString;
     url := EmptyString |}.

(** A response body as [json.Decoder] sees it for the struct it decodes
    into: a document, or bytes whose decoding fails with a message, after
    having stored the members in [partial] (none for a syntax error). *)
Inductive Body : Type :=
| Document (f : Fields)
| Malformed (msg : string) (partial : Fields).

(** A struct a response is decoded into: how it is filled from the
    document's members.  The callers all pass a pointer to a fresh
    zero value, so the members the document lacks are zero. *)
Class RespObject (T : Type) : Type := {
  zeroValue : T;
  fill : Fields -> T
}.

(** [json.NewDecoder(body).Decode(respObject)]. *)
Definition Decode {T : Type} `{RespObject T} (b : Body) : T * option string :=
  match b with
  | Document f => (fill f, None)
  | Malformed msg partial => (fill partial, Some msg)
  end.

(** ** package net/http *)

Record Request : Type := {
  Method : string;
  URL : string;
  Header : list (string * string);
  ReqBody : option Payload
}.

Record Response : Type := {
  StatusCode : Z;
  Status : string;       (* e.g. 200 OK *)
  RespBody : Body
}.

Definition StatusOK : Z := 200.
Definition MethodGet : string := "GET".
Definition MethodPost : string := "POST".

(** [http.NewRequest(method, url, body)].  Of the ways [url.Parse] can
    fail, the one these URLs can meet is a control byte in the string. *)
Definition NewRequest (method url : string) (body : option Payload)
  : Request + string :=
  if stringContainsCTLByte url
  then inr ("parse " ++ quote url ++ ": net/url: invalid control character in URL")
  else inl {| Method := method; URL := url; Header := []; ReqBody := body |}.

(** [req.Header.Add] and [req.Header.Set] on a request with no such
    header yet. *)
Definition Header_Add (req : Request) (key value : string) : Request :=
  {| Method := Method req; URL := URL req;
     Header := (Header req ++ [(key, value)])%list; ReqBody := ReqBody req |}.

(** [http.Client]: its timeout, 0 for none. *)
Record Client : Type := { Timeout : Duration }.

(** One answer of the network: how long it takes, and the transport
    error or the response. *)
Record Exchange : Type := {
  elapsed : N;
  reply : string + Response
}.

Record World : Type := {
  now : Time;                 (* what time.Now() reads *)
  pending : list Exchange;    (* the answers to the next requests *)
  sent : list Request         (* the requests sent so far, oldest first *)
}.

(** What the network holds for the next request of a client: the next
    pending answer, unless the client's timeout fires first.  With no
    answer pending the connection fails at once. *)
Definition timedOut (c : Client) (x : Exchange) : bool :=
  (0 <? Timeout c) && (Timeout c <? Z.of_N (elapsed x)).

Definition answer (c : Client) (w : World) : Response + string :=
  match pending w with
  | [] => inr "dial tcp: connect: connection refused"
  | x :: _ =>
      if timedOut c x
      then inr "context deadline exceeded (Client.Timeout exceeded while awaiting headers)"
      else match reply x with inl e => inr e | inr resp => inl resp end
  end.

(** The time the next exchange takes. *)
Definition waited (c : Client) (w : World) : Duration :=
  match pending w with
  | [] => 0
  | x :: _ => if timedOut c x then Timeout c else Z.of_N (elapsed x)
  end.

(** [client.Do(req)]: the request is sent and the answer awaited. *)
Definition Do (c : Client) (req : Request) (w : World)
  : (Response + string) * World :=
  (answer c w,
   {| now := now w + waited c w; pending := tl (pending w);
      sent := (sent w ++ [req])%list |}).

(** ** wxwork_app.go: constants and types *)

Definition WxWorkAppTokenAPI : string := "https://qyapi.weixin.qq.com/cgi-bin/gettoken".
Definition WxWorkAppUploadMediaAPI : string := "https://qyapi.weixin.qq.com/cgi-bin/media/upload".
Definition WxWorkAppUploadImageAPI : string := "https://qyapi.weixin.qq.com/cgi-bin/media/uploadimg".
Definition WxWorkAppMessageAPI : string := "https://qyapi.weixin.qq.com/cgi-bin/message/send".
Definition WxWorkAppGroupMessageAPI : string := "https://qyapi.weixin.qq.com/cgi-bin/appchat/send".
Definition WxWorkAppCreateGroupAPI : string := "https://qyapi.weixin.qq.com/cgi-bin/appchat/create".
Definition WxWorkAppUpdateGroupAPI : string := "https://qyapi.weixin.qq.com/cgi-bin/appchat/update".
Definition WxWorkAppGetGroupAPI : string := "https://qyapi.weixin.qq.com/cgi-bin/appchat/get".

Definition WxWorkAppTimeout : Duration := Second * 10.
Definition WxWorkAppStatusOK : Z := 0.
Definition WxWorkCodeAccessTokenExpired : Z := 42001.

Record WxWorkAppTokenResp : Type := {
  TokenErrCode : Z; TokenErrMessage : string;
  AccessToken : string; ExpiresIn : Z
}.

Record WxWorkAppMessageResp : Type := {
  MessageErrCode : Z; MessageErrMessage : string;
  InvalidUser : string; InvalidParty : string; InvalidTag : string
}.

Record WxWorkAppGroupMessageResp : Type := {
  GroupMessageErrCode : Z; GroupMessageErrMessage : string
}.

Record WxWorkAppUploadMediaResp : Type := {
  UploadMediaErrCode : Z; UploadMediaErrMessage : string;
  MediaType : string; MediaID : string; CreatedAt : string
}.

Record WxWorkAppUploadImageResp : Type := {
  UploadImageErrCode : Z; UploadImageErrMessage : string; ImageURL : string
}.

Record WxWorkAppCreateGroupResp : Type := {
  CreateGroupErrCode : Z; CreateGroupErrMessage : string; ChatID : string
}.

Record WxWorkAppUpdateGroupResp : Type := {
  UpdateGroupErrCode : Z; UpdateGroupErrMessage : string
}.

Record WxWorkAppGetGroupResp : Type := {
  GetGroupErrCode : Z; GetGroupErrMessage : string; ChatInfo : WxWorkAppGroup
}.

Record WxWorkAppCreateGroupOptions : Type := { OptChatID : string }.

Record WxWorkAppUpdateGroupOptions : Type := {
  OptName : string; OptOwner : string;
  AddUserList : list string; DelUserList : list string
}.

#[global] Instance TokenResp_obj : RespObject WxWorkAppTokenResp := {
  zeroValue := {| TokenErrCode := 0; TokenErrMessage := EmptyString;
                  AccessToken := EmptyString; ExpiresIn := 0 |};
  fill f := {| TokenErrCode := errcode f; TokenErrMessage := errmsg f;
               AccessToken := access_token f; ExpiresIn := expires_in f |}
}.

#[global] Instance MessageResp_obj : RespObject WxWorkAppMessageResp := {
  zeroValue := {| MessageErrCode := 0; MessageErrMessage := EmptyString;
                  InvalidUser := EmptyString; InvalidParty := EmptyString;
                  InvalidTag := EmptyString |};
  fill f := {| MessageErrCode := errcode f; MessageErrMessage := errmsg f;
               InvalidUser := invaliduser f; InvalidParty := invalidparty f;
               InvalidTag := invalidtag f |}
}.

#[global] Instance GroupMessageResp_obj : RespObject WxWorkAppGroupMessageResp := {
  zeroValue := {| GroupMessageErrCode := 0; GroupMessageErrMessage := EmptyString |};
  fill f := {| GroupMessageErrCode := errcode f; GroupMessageErrMessage := errmsg f |}
}.

#[global] Instance UploadMediaResp_obj : RespObject WxWorkAppUploadMediaResp := {
  zeroValue := {| UploadMediaErrCode := 0; UploadMediaErrMessage := EmptyString;
                  MediaType := EmptyString; MediaID := EmptyString;
                  CreatedAt := EmptyString |};
  fill f := {| UploadMediaErrCode := errcode f; UploadMediaErrMessage := errmsg f;
               MediaType := type_ f; MediaID := media_id f;
               CreatedAt := created_at f |}
}.

#[global] Instance UploadImageResp_obj : RespObject WxWorkAppUploadImageResp := {
  zeroValue := {| UploadImageErrCode := 0; UploadImageErrMessage := EmptyString;
                  ImageURL := EmptyString |};
  fill f := {| UploadImageErrCode := errcode f; UploadImageErrMessage := errmsg f;
               ImageURL := url f |}
}.

#[global] Instance CreateGroupResp_obj : RespObject WxWorkAppCreateGroupResp := {
  zeroValue := {| CreateGroupErrCode := 0; CreateGroupErrMessage := EmptyString;
                  ChatID := EmptyString |};
  fill f := {| CreateGroupErrCode := errcode f; CreateGroupErrMessage := errmsg f;
               ChatID := chatid f |}
}.

#[global] Instance UpdateGroupResp_obj : RespObject WxWorkAppUpdateGroupResp := {
  zeroValue := {| UpdateGroupErrCode := 0; UpdateGroupErrMessage := EmptyString |};
  fill f := {| UpdateGroupErrCode := errcode f; UpdateGroupErrMessage := errmsg f |}
}.

#[global] Instance GetGroupResp_obj : RespObject WxWorkAppGetGroupResp := {
  zeroValue := {| GetGroupErrCode := 0; GetGroupErrMessage := EmptyString;
                  ChatInfo := zeroGroup |};
  fill f := {| GetGroupErrCode := errcode f; GetGroupErrMessage := errmsg f;
               ChatInfo := chat_info f |}
}.

(** [WxWorkApp].  The lock [tokenRefreshLock] has no content of its own;
    who holds it is part of the configurations of [Module Goroutines]. *)
Record WxWorkApp : Type := {
  agentID : string;
  corpID : string;
  corpSecret : string;
  client : Client;
  accessToken : string;   (* cached access token *)
  expiredAt : Time        (* token expire time *)
}.

Definition setAccessToken (r : WxWorkApp) (token : string) : WxWorkApp :=
  {| agentID := agentID r; corpID := corpID r; corpSecret := corpSecret r;
     client := client r; accessToken := token; expiredAt := expiredAt r |}.

Definition setExpiredAt (r : WxWorkApp) (t : Time) : WxWorkApp :=
  {| agentID := agentID r; corpID := corpID r; corpSecret := corpSecret r;
     client := client r; accessToken := accessToken r; expiredAt := t |}.

(** ** The state monad of the methods

    A method of [*WxWorkApp] reads and writes the receiver and the world
    and returns a value; a Go [error] is an [option string], [None] for
    [nil]. *)
Definition M (A : Type) : Type := WxWorkApp * World -> A * (WxWorkApp * World).

Definition ret {A : Type} (a : A) : M A := fun s => (a, s).

Definition bind {A B : Type} (m : M A) (k : A -> M B) : M B :=
  fun s => let '(a, s') := m s in k a s'.

Notation "x <- m ;; k" := (bind m (fun x => k))
  (at level 100, m at next level, right associativity).

Definition self : M WxWorkApp := fun s => (fst s, s).
Definition modify (f : WxWorkApp -> WxWorkApp) : M unit :=
  fun s => (tt, (f (fst s), snd s)).
Definition timeNow : M Time := fun s => (now (snd s), s).
Definition clientDo (req : Request) : M (Response + string) :=
  fun s => let '(res, w) := Do (client (fst s)) req (snd s) in (res, (fst s, w)).

(** ** wxwork_app.go: the methods *)

(** [IsAccessTokenExpired]. *)
Definition IsAccessTokenExpired : M bool :=
  r <- self ;; t <- timeNow ;; ret (After t (expiredAt r)).

(** [NewWxWorkAppWithTimeout], [NewWxWorkApp] and [NewWxWorkAppWithClient]. *)
Definition NewWxWorkAppWithTimeout (corpID corpSecret agentID : string)
  (timeout : Duration) : WxWorkApp :=
  {| agentID := agentID; corpID := corpID; corpSecret := corpSecret;
     client := {| Timeout := timeout |};
     accessToken := EmptyString; expiredAt := zeroTime |}.

Definition NewWxWorkApp (corpID corpSecret agentID : string) : WxWorkApp :=
  NewWxWorkAppWithTimeout corpID corpSecret agentID WxWorkAppTimeout.

Definition NewWxWorkAppWithClient (corpID corpSecret agentID : string)
  (c : Client) : WxWorkApp :=
  {| agentID := agentID; corpID := corpID; corpSecret := corpSecret;
     client := c; accessToken := EmptyString; expiredAt := zeroTime |}.

(** [refreshAccessToken] up to its check of the envelope (the function
    body before the comment [set access token and expired at]): the
    exchange with the token endpoint, giving the decoded token response
    or the error the function returns. *)
Definition requestToken : M (WxWorkAppTokenResp + string) :=
  r <- self ;;
  let reqURL := WxWorkAppTokenAPI ++ "?corpid=" ++ corpID r
                  ++ "&corpsecret=" ++ corpSecret r in
  match NewRequest MethodGet reqURL None with
  | inr newErr => ret (inr ("create request error, " ++ newErr))
  | inl req =>
      res <- clientDo req ;;
      match res with
      | inr getErr => ret (inr ("get response error, " ++ getErr))
      | inl resp =>
          (* check http code *)
          if negb (StatusCode resp =? StatusOK)
          then ret (inr ("wxwork request error, " ++ Status resp))
          else
            (* parse response body *)
            match Decode (RespBody resp) with
            | (_, Some decodeErr) => ret (inr ("parse response error, " ++ decodeErr))
            | (wxTokenResp, None) =>
                if negb (TokenErrCode wxTokenResp =? WxWorkAppStatusOK)
                then ret (inr ("call wxwork app api error, "
                                 ++ formatInt (TokenErrCode wxTokenResp) ++ " "
                                 ++ TokenErrMessage wxTokenResp))
                else ret (inl wxTokenResp)
            end
      end
  end.

(** [refreshAccessToken]. *)
Definition refreshAccessToken : M (option string) :=
  res <- requestToken ;;
  match res with
  | inr err => ret (Some err)
  | inl wxTokenResp =>
      (* set access token and expired at *)
      _ <- modify (fun r => setAccessToken r (AccessToken wxTokenResp)) ;;
      t <- timeNow ;;
      _ <- modify (fun r =>
             setExpiredAt r (Add t (mulDuration Second (ExpiresIn wxTokenResp)))) ;;
      ret None
  end.

(** The condition [r.accessToken == "" || r.IsAccessTokenExpired()]. *)
Definition tokenMissingOrExpired : M bool :=
  r <- self ;;
  if String.eqb (accessToken r) EmptyString then ret true
  else IsAccessTokenExpired.

(** The block under [check the token expired or not], the same text at
    the head of [fireRequest] and of [uploadFile]: check, lock, check
    again, refresh, unlock, wrap the error.  One goroutine alone never
    waits for the lock. *)
Definition checkToken : M (option string) :=
  stale <- tokenMissingOrExpired ;;
  if stale then
    (* r.tokenRefreshLock.Lock() *)
    stale' <- tokenMissingOrExpired ;;
    err <- (if stale' then refreshAccessToken else ret None) ;;
    (* r.tokenRefreshLock.Unlock() *)
    match err with
    | Some e => ret (Some ("refresh access token error, " ++ e))
    | None => ret None
    end
  else ret None.

(** The query string both dispatchers build: the token, then the
    caller's parameters. *)
Definition queryOf (token : string) (reqParams : list (string * string)) : Values :=
  fold_left (fun q kv => Values_Add q (fst kv) (snd kv)) reqParams
            (Values_Add [] "access_token" token).

(** [uploadFile].  Writing the form to a [bytes.Buffer] cannot fail, so
    the three error returns of the form writer are not reachable. *)
Definition uploadFile {T : Type} `{RespObject T} (reqMethod reqURL : string)
  (reqParams : list (string * string)) (fileBody : list Byte.byte)
  (fileName : string) (wxUploadFileResp : T) : M (T * option string) :=
  (* check the token expired or not *)
  err <- checkToken ;;
  match err with
  | Some e => ret (wxUploadFileResp, Some e)
  | None =>
      r <- self ;;
      (* check params *)
      let queryString := queryOf (accessToken r) reqParams in
      let reqURL := reqURL ++ "?" ++ Encode queryString in
      (* create body *)
      let respBodyBuffer := FormFile "media" fileName fileBody in
      (* create new request *)
      match NewRequest reqMethod reqURL (Some respBodyBuffer) with
      | inr newErr => ret (wxUploadFileResp, Some ("create request error, " ++ newErr))
      | inl req =>
          (* set multi-part header *)
          let req := Header_Add req "Content-Type" "multipart/form-data" in
          res <- clientDo req ;;
          match res with
          | inr getErr => ret (wxUploadFileResp, Some ("get response error, " ++ getErr))
          | inl resp =>
              (* check http code *)
              if negb (StatusCode resp =? StatusOK)
              then ret (wxUploadFileResp,
                        Some ("wxwork app request error, " ++ Status resp))
              else
                (* parse response body *)
                match Decode (RespBody resp) with
                | (v, Some decodeErr) =>
                    ret (v, Some ("parse response error, " ++ decodeErr))
                | (v, None) => ret (v, None)
                end
          end
      end
  end.

(** [fireRequest]. *)
Definition fireRequest {T : Type} `{RespObject T} (reqMethod reqURL : string)
  (reqParams : list (string * string)) (reqBodyObject : option GoValue)
  (respObject : T) : M (T * option string) :=
  (* check the token expired or not *)
  err <- checkToken ;;
  match err with
  | Some e => ret (respObject, Some e)
  | None =>
      r <- self ;;
      let queryString := queryOf (accessToken r) reqParams in
      let reqURL := reqURL ++ "?" ++ Encode queryString in
      let reqBodyReader :=
        match reqBodyObject with
        | Some v => let '(reqBody, _) := Marshal v in Some reqBody
        | None => None
        end in
      match NewRequest reqMethod reqURL reqBodyReader with
      | inr newErr => ret (respObject, Some ("create request error, " ++ newErr))
      | inl req =>
          let req := Header_Add req "Content-Type" "application/json" in
          res <- clientDo req ;;
          match res with
          | inr getErr => ret (respObject, Some ("get response error, " ++ getErr))
          | inl resp =>
              (* check http code *)
              if negb (StatusCode resp =? StatusOK)
              then ret (respObject, Some ("wxwork request error, " ++ Status resp))
              else
                (* parse response body *)
                match Decode (RespBody resp) with
                | (v, Some decodeErr) =>
                    ret (v, Some ("parse response error, " ++ decodeErr))
                | (v, None) => ret (v, None)
                end
          end
      end
  end.

(** [fmt.Errorf("call wxwork app ... api error, %d %s", code, message)]. *)
Definition apiError (api : string) (code : Z) (message : string) : string :=
  "call wxwork app " ++ api ++ " api error, " ++ formatInt code ++ " " ++ message.

(** [r.accessToken = ""] when the envelope carries the expiry code. *)
Definition resetIfExpired (code : Z) : M unit :=
  if code =? WxWorkCodeAccessTokenExpired
  then (* reset the access token *) modify (fun r => setAccessToken r EmptyString)
  else ret tt.

(** [sendMessage]. *)
Definition sendMessage (messageObj : option GoValue)
  : M (WxWorkAppMessageResp * option string) :=
  res <- fireRequest MethodPost WxWorkAppMessageAPI [] messageObj zeroValue ;;
  let '(messageResp, err) := res in
  match err with
  | Some _ => ret (messageResp, err)
  | None =>
      if negb (MessageErrCode messageResp =? WxWorkAppStatusOK) then
        _ <- resetIfExpired (MessageErrCode messageResp) ;;
        ret (messageResp,
             Some (apiError "message" (MessageErrCode messageResp)
                            (MessageErrMessage messageResp)))
      else ret (messageResp, None)
  end.

(** [CreateGroupChat]. *)
Definition CreateGroupChat (name ownerID : string) (userIDList : list string)
  (options : option WxWorkAppCreateGroupOptions) : M (string * option string) :=
  let createGroupReqObject :=
    ([("name", GoString name); ("owner", GoString ownerID);
      ("userlist", GoStrings userIDList)]
     ++ match options with
        | Some o => [("chatid", GoString (OptChatID o))]
        | None => []
        end)%list in
  res <- fireRequest MethodPost WxWorkAppCreateGroupAPI []
           (Some (GoMap createGroupReqObject)) zeroValue ;;
  let '(createGroupResp, err) := res in
  match err with
  | Some _ => ret (EmptyString, err)
  | None =>
      if negb (CreateGroupErrCode createGroupResp =? WxWorkAppStatusOK) then
        _ <- resetIfExpired (CreateGroupErrCode createGroupResp) ;;
        ret (EmptyString,
             Some (apiError "create group" (CreateGroupErrCode createGroupResp)
                            (CreateGroupErrMessage createGroupResp)))
      else ret (ChatID createGroupResp, None)
  end.

(** [UpdateGroupChat]. *)
Definition UpdateGroupChat (chatID : string)
  (options : option WxWorkAppUpdateGroupOptions) : M (option string) :=
  let updateGroupReqObject :=
    ([("chatid", GoString chatID)]
     ++ match options with
        | Some o => [("name", GoString (OptName o)); ("owner", GoString (OptOwner o));
                     ("add_user_list", GoStrings (AddUserList o));
                     ("del_user_list", GoStrings (DelUserList o))]
        | None => []
        end)%list in
  res <- fireRequest MethodPost WxWorkAppUpdateGroupAPI []
           (Some (GoMap updateGroupReqObject)) zeroValue ;;
  let '(updateGroupResp, err) := res in
  match err with
  | Some _ => ret err
  | None =>
      if negb (UpdateGroupErrCode updateGroupResp =? WxWorkAppStatusOK) then
        _ <- resetIfExpired (UpdateGroupErrCode updateGroupResp) ;;
        ret (Some (apiError "update group" (UpdateGroupErrCode updateGroupResp)
                            (UpdateGroupErrMessage updateGroupResp)))
      else ret None
  end.

(** [GetGroupChat]. *)
Definition GetGroupChat (chatID : string) : M (WxWorkAppGroup * option string) :=
  res <- fireRequest MethodGet WxWorkAppGetGroupAPI [("chatid", chatID)] None zeroValue ;;
  let '(getGroupResp, err) := res in
  match err with
  | Some _ => ret (zeroGroup, err)
  | None =>
      if negb (GetGroupErrCode getGroupResp =? WxWorkAppStatusOK) then
        _ <- resetIfExpired (GetGroupErrCode getGroupResp) ;;
        ret (zeroGroup,
             Some (apiError "get group" (GetGroupErrCode getGroupResp)
                            (GetGroupErrMessage getGroupResp)))
      else ret (ChatInfo getGroupResp, None)
  end.

(** [sendGroupMessage]. *)
Definition sendGroupMessage (messageObj : option GoValue) : M (option string) :=
  res <- fireRequest MethodPost WxWorkAppGroupMessageAPI [] messageObj zeroValue ;;
  let '(messageResp, err) := res in
  match err with
  | Some _ => ret err
  | None =>
      if negb (GroupMessageErrCode messageResp =? WxWorkAppStatusOK) then
        _ <- resetIfExpired (GroupMessageErrCode messageResp) ;;
        ret (Some (apiError "group message" (GroupMessageErrCode messageResp)
                            (GroupMessageErrMessage messageResp)))
      else ret None
  end.

(** [UploadMedia]: the media id, the creation time and the error. *)
Definition UploadMedia (fileBody : list Byte.byte) (fileName fileType : string)
  : M (string * Z * option string) :=
  res <- uploadFile MethodPost WxWorkAppUploadMediaAPI [("type", fileType)]
           fileBody fileName zeroValue ;;
  let '(uploadMediaResp, err) := res in
  match err with
  | Some _ => ret (EmptyString, 0, err)
  | None =>
      if negb (UploadMediaErrCode uploadMediaResp =? WxWorkAppStatusOK) then
        _ <- resetIfExpired (UploadMediaErrCode uploadMediaResp) ;;
        ret (EmptyString, 0,
             Some (apiError "upload media" (UploadMediaErrCode uploadMediaResp)
                            (UploadMediaErrMessage uploadMediaResp)))
      else
        (* set fields *)
        let mediaID := MediaID uploadMediaResp in
        let '(createdAt, _) := ParseInt (CreatedAt uploadMediaResp) in
        ret (mediaID, createdAt, None)
  end.

(** [UploadImage]. *)
Definition UploadImage (fileBody : list Byte.byte) (fileName : string)
  : M (string * option string) :=
  res <- uploadFile MethodPost WxWorkAppUploadImageAPI [] fileBody fileName zeroValue ;;
  let '(uploadImageResp, err) := res in
  match err with
  | Some _ => ret (EmptyString, err)
  | None =>
      if negb (UploadImageErrCode uploadImageResp =? WxWorkAppStatusOK) then
        _ <- resetIfExpired (UploadImageErrCode uploadImageResp) ;;
        ret (EmptyString,
             Some (apiError "upload image" (UploadImageErrCode uploadImageResp)
                            (UploadImageErrMessage uploadImageResp)))
      else
        (* set fields *)
        ret (ImageURL uploadImageResp, None)
  end.

(** ** wxwork_app.go: the message helpers

    The helpers whose message objects hold strings and integers only:
    text, markdown, image, voice, video, file and text card, to users and
    to a group.  (The news, mpnews, miniprogram notice and task card
    helpers put slices of structs and a boolean in the object.) *)

Definition WxWorkAppMessageTypeText : string := "text".
Definition WxWorkAppMessageTypeImage : string := "image".
Definition WxWorkAppMessageTypeVoice : string := "voice".
Definition WxWorkAppMessageTypeVideo : string := "video".
Definition WxWorkAppMessageTypeFile : string := "file".
Definition WxWorkAppMessageTypeTextCard : string := "textcard".
Definition WxWorkAppMessageTypeMarkdown : string := "markdown".

Record WxWorkAppMessageSendOptions : Type := {
  Safe : bool;
  EnableIDTrans : bool;
  EnableDuplicateCheck : bool;
  DuplicateCheckInterval : Z
}.

(** [strings.Join(elems, sep)]. *)
Definition Join (elems : list string) (sep : string) : string :=
  String.concat sep elems.

(** The five assignments every helper for users starts with. *)
Definition addressed (r : WxWorkApp) (userIDList partyIDList tagIDList : list string)
  (msgtype : string) : list (string * GoValue) :=
  [("touser", GoString (Join userIDList "|"));
   ("toparty", GoString (Join partyIDList "|"));
   ("totag", GoString (Join tagIDList "|"));
   ("msgtype", GoString msgtype);
   ("agentid", GoString (agentID r))].

(** The block under [add options if specified] of the helpers for
    users. *)
Definition sendOptions (options : option WxWorkAppMessageSendOptions)
  : list (string * GoValue) :=
  match options with
  | Some o =>
      ((if Safe o then [("safe", GoInt 1)] else [])
       ++ (if EnableIDTrans o then [("enable_id_trans", GoInt 1)] else [])
       ++ (if EnableDuplicateCheck o then [("enable_duplicate_check", GoInt 1)] else [])
       ++ (if 0 <? DuplicateCheckInterval o
           then [("duplicate_check_interval", GoInt (DuplicateCheckInterval o))]
           else []))%list
  | None => []
  end.

(** [if options != nil && options.Safe] of the helpers for a group. *)
Definition groupOptions (options : option WxWorkAppMessageSendOptions)
  : list (string * GoValue) :=
  match options with
  | Some o => if Safe o then [("safe", GoInt 1)] else []
  | None => []
  end.

(** [SendTextMessage]. *)
Definition SendTextMessage (userIDList partyIDList tagIDList : list string)
  (content : string) (options : option WxWorkAppMessageSendOptions)
  : M (WxWorkAppMessageResp * option string) :=
  r <- self ;;
  let messageObj :=
    (addressed r userIDList partyIDList tagIDList WxWorkAppMessageTypeText
     ++ [("text", GoMap [("content", GoString content)])]
     ++ sendOptions options)%list in
  sendMessage (Some (GoMap messageObj)).

(** [SendMarkdownMessage]. *)
Definition SendMarkdownMessage (userIDList partyIDList tagIDList : list string)
  (content : string) (options : option WxWorkAppMessageSendOptions)
  : M (WxWorkAppMessageResp * option string) :=
  r <- self ;;
  let messageObj :=
    (addressed r userIDList partyIDList tagIDList WxWorkAppMessageTypeMarkdown
     ++ [("markdown", GoMap [("content", GoString content)])]
     ++ sendOptions options)%list in
  sendMessage (Some (GoMap messageObj)).

(** [SendImageMessage]. *)
Definition SendImageMessage (userIDList partyIDList tagIDList : list string)
  (mediaID : string) (options : option WxWorkAppMessageSendOptions)
  : M (WxWorkAppMessageResp * option string) :=
  r <- self ;;
  let messageObj :=
    (addressed r userIDList partyIDList tagIDList WxWorkAppMessageTypeImage
     ++ [("image", GoMap [("media_id", GoString mediaID)])]
     ++ sendOptions options)%list in
  sendMessage (Some (GoMap messageObj)).

(** [SendVoiceMessage]. *)
Definition SendVoiceMessage (userIDList partyIDList tagIDList : list string)
  (mediaID : string) (options : option WxWorkAppMessageSendOptions)
  : M (WxWorkAppMessageResp * option string) :=
  r <- self ;;
  let messageObj :=
    (addressed r userIDList partyIDList tagIDList WxWorkAppMessageTypeVoice
     ++ [("voice", GoMap [("media_id", GoString mediaID)])]
     ++ sendOptions options)%list in
  sendMessage (Some (GoMap messageObj)).

(** [SendVideoMessage]. *)
Definition SendVideoMessage (userIDList partyIDList tagIDList : list string)
  (mediaID mediaTitle mediaDescription : string)
  (options : option WxWorkAppMessageSendOptions)
  : M (WxWorkAppMessageResp * option string) :=
  r <- self ;;
  let messageObj :=
    (addressed r userIDList partyIDList tagIDList WxWorkAppMessageTypeVideo
     ++ [("video", GoMap [("media_id", GoString mediaID);
                          ("title", GoString mediaTitle);
                          ("description", GoString mediaDescription)])]
     ++ sendOptions options)%list in
  sendMessage (Some (GoMap messageObj)).

(** [SendFileMessage]. *)
Definition SendFileMessage (userIDList partyIDList tagIDList : list string)
  (mediaID : string) (options : option WxWorkAppMessageSendOptions)
  : M (WxWorkAppMessageResp * option string) :=
  r <- self ;;
  let messageObj :=
    (addressed r userIDList partyIDList tagIDList WxWorkAppMessageTypeFile
     ++ [("file", GoMap [("media_id", GoString mediaID)])]
     ++ sendOptions options)%list in
  sendMessage (Some (GoMap messageObj)).

(** [SendTextCardMessage]. *)
Definition SendTextCardMessage (userIDList partyIDList tagIDList : list string)
  (title description url btnText : string)
  (options : option WxWorkAppMessageSendOptions)
  : M (WxWorkAppMessageResp * option string) :=
  r <- self ;;
  let messageObj :=
    (addressed r userIDList partyIDList tagIDList WxWorkAppMessageTypeTextCard
     ++ [("textcard", GoMap [("title", GoString title);
                             ("description", GoString description);
                             ("url", GoString url);
                             ("btntxt", GoString btnText)])]
     ++ sendOptions options)%list in
  sendMessage (Some (GoMap messageObj)).

(** [SendGroupTextMessage]. *)
Definition SendGroupTextMessage (chatID content : string)
  (options : option WxWorkAppMessageSendOptions) : M (option string) :=
  let messageObj :=
    ([("chatid", GoString chatID);
      ("msgtype", GoString WxWorkAppMessageTypeText);
      ("text", GoMap [("content", GoString content)])]
     ++ groupOptions options)%list in
  sendGroupMessage (Some (GoMap messageObj)).

(** [SendGroupMarkdownMessage]. *)
Definition SendGroupMarkdownMessage (chatID content : string)
  (options : option WxWorkAppMessageSendOptions) : M (option string) :=
  let messageObj :=
    ([("chatid", GoString chatID);
      ("msgtype", GoString WxWorkAppMessageTypeMarkdown);
      ("markdown", GoMap [("content", GoString content)])]
     ++ groupOptions options)%list in
  sendGroupMessage (Some (GoMap messageObj)).

(** [SendGroupImageMessage]. *)
Definition SendGroupImageMessage (chatID mediaID : string)
  (options : option WxWorkAppMessageSendOptions) : M (option string) :=
  let messageObj :=
    ([("chatid", GoString chatID);
      ("msgtype", GoString WxWorkAppMessageTypeImage);
      ("image", GoMap [("media_id", GoString mediaID)])]
     ++ groupOptions options)%list in
  sendGroupMessage (Some (GoMap messageObj)).

(** [SendGroupVoiceMessage]. *)
Definition SendGroupVoiceMessage (chatID mediaID : string)
  (options : option WxWorkAppMessageSendOptions) : M (option string) :=
  let messageObj :=
    ([("chatid", GoString chatID);
      ("msgtype", GoString WxWorkAppMessageTypeVoice);
      ("voice", GoMap [("media_id", GoString mediaID)])]
     ++ groupOptions options)%list in
  sendGroupMessage (Some (GoMap messageObj)).

(** [SendGroupVideoMessage]. *)
Definition SendGroupVideoMessage (chatID mediaID mediaTitle mediaDescription : string)
  (options : option WxWorkAppMessageSendOptions) : M (option string) :=
  let messageObj :=
    ([("chatid", GoString chatID);
      ("msgtype", GoString WxWorkAppMessageTypeVideo);
      ("video", GoMap [("media_id", GoString mediaID);
                       ("title", GoString mediaTitle);
                       ("description", GoString mediaDescription)])]
     ++ groupOptions options)%list in
  sendGroupMessage (Some (GoMap messageObj)).

(** [SendGroupFileMessage]. *)
Definition SendGroupFileMessage (chatID mediaID : string)
  (options : option WxWorkAppMessageSendOptions) : M (option string) :=
  let messageObj :=
    ([("chatid", GoString chatID);
      ("msgtype", GoString WxWorkAppMessageTypeFile);
      ("file", GoMap [("media_id", GoString mediaID)])]
     ++ groupOptions options)%list in
  sendGroupMessage (Some (GoMap messageObj)).

(** [SendGroupTextCardMessage]. *)
Definition SendGroupTextCardMessage (chatID title description url btnText : string)
  (options : option WxWorkAppMessageSendOptions) : M (option string) :=
  let messageObj :=
    ([("chatid", GoString chatID);
      ("msgtype", GoString WxWorkAppMessageTypeTextCard);
      ("textcard", GoMap [("title", GoString title);
                          ("description", GoString description);
                          ("url", GoString url);
                          ("btntext", GoString btnText)])]
     ++ groupOptions options)%list in
  sendGroupMessage (Some (GoMap messageObj)).

(** ** Calls and runs *)

(** The seven operations every message, group and media helper ends in. *)
Inductive Operation : Type :=
| OpSendMessage (messageObj : option GoValue)
| OpCreateGroupChat (name ownerID : string) (userIDList : list string)
    (options : option WxWorkAppCreateGroupOptions)
| OpUpdateGroupChat (chatID : string) (options : option WxWorkAppUpdateGroupOptions)
| OpGetGroupChat (chatID : string)
| OpSendGroupMessage (messageObj : option GoValue)
| OpUploadMedia (fileBody : list Byte.byte) (fileName fileType : string)
| OpUploadImage (fileBody : list Byte.byte) (fileName : string).

(** The call of an operation, keeping of its results the error. *)
Definition perform (op : Operation) : M (option string) :=
  match op with
  | OpSendMessage m => res <- sendMessage m ;; ret (snd res)
  | OpCreateGroupChat n o l opts => res <- CreateGroupChat n o l opts ;; ret (snd res)
  | OpUpdateGroupChat c opts => UpdateGroupChat c opts
  | OpGetGroupChat c => res <- GetGroupChat c ;; ret (snd res)
  | OpSendGroupMessage m => sendGroupMessage m
  | OpUploadMedia b n t => res <- UploadMedia b n t ;; ret (snd res)
  | OpUploadImage b n => res <- UploadImage b n ;; ret (snd res)
  end.

(** The endpoint an operation addresses, and the word for it in its
    error messages. *)
Definition endpoint (op : Operation) : string :=
  match op with
  | OpSendMessage _ => WxWorkAppMessageAPI
  | OpCreateGroupChat _ _ _ _ => WxWorkAppCreateGroupAPI
  | OpUpdateGroupChat _ _ => WxWorkAppUpdateGroupAPI
  | OpGetGroupChat _ => WxWorkAppGetGroupAPI
  | OpSendGroupMessage _ => WxWorkAppGroupMessageAPI
  | OpUploadMedia _ _ _ => WxWorkAppUploadMediaAPI
  | OpUploadImage _ _ => WxWorkAppUploadImageAPI
  end.

Definition apiName (op : Operation) : string :=
  match op with
  | OpSendMessage _ => "message"
  | OpCreateGroupChat _ _ _ _ => "create group"
  | OpUpdateGroupChat _ _ => "update group"
  | OpGetGroupChat _ => "get group"
  | OpSendGroupMessage _ => "group message"
  | OpUploadMedia _ _ _ => "upload media"
  | OpUploadImage _ _ => "upload image"
  end.

(** The call to [fireRequest] or [uploadFile] an operation starts with,
    keeping of the envelope it decodes into the code and the message. *)
Definition dispatch (op : Operation) : M (Z * string * option string) :=
  match op with
  | OpSendMessage m =>
      res <- fireRequest MethodPost WxWorkAppMessageAPI [] m zeroValue ;;
      ret (MessageErrCode (fst res), MessageErrMessage (fst res), snd res)
  | OpCreateGroupChat name ownerID userIDList options =>
      res <- fireRequest MethodPost WxWorkAppCreateGroupAPI []
               (Some (GoMap
                  ([("name", GoString name); ("owner", GoString ownerID);
                    ("userlist", GoStrings userIDList)]
                   ++ match options with
                      | Some o => [("chatid", GoString (OptChatID o))]
                      | None => []
                      end)%list)) zeroValue ;;
      ret (CreateGroupErrCode (fst res), CreateGroupErrMessage (fst res), snd res)
  | OpUpdateGroupChat chatID options =>
      res <- fireRequest MethodPost WxWorkAppUpdateGroupAPI []
               (Some (GoMap
                  ([("chatid", GoString chatID)]
                   ++ match options with
                      | Some o =>
                          [("name", GoString (OptName o)); ("owner", GoString (OptOwner o));
                           ("add_user_list", GoStrings (AddUserList o));
                           ("del_user_list", GoStrings (DelUserList o))]
                      | None => []
                      end)%list)) zeroValue ;;
      ret (UpdateGroupErrCode (fst res), UpdateGroupErrMessage (fst res), snd res)
  | OpGetGroupChat chatID =>
      res <- fireRequest MethodGet WxWorkAppGetGroupAPI [("chatid", chatID)] None
               zeroValue ;;
      ret (GetGroupErrCode (fst res), GetGroupErrMessage (fst res), snd res)
  | OpSendGroupMessage m =>
      res <- fireRequest MethodPost WxWorkAppGroupMessageAPI [] m zeroValue ;;
      ret (GroupMessageErrCode (fst res), GroupMessageErrMessage (fst res), snd res)
  | OpUploadMedia fileBody fileName fileType =>
      res <- uploadFile MethodPost WxWorkAppUploadMediaAPI [("type", fileType)]
               fileBody fileName zeroValue ;;
      ret (UploadMediaErrCode (fst res), UploadMediaErrMessage (fst res), snd res)
  | OpUploadImage fileBody fileName =>
      res <- uploadFile MethodPost WxWorkAppUploadImageAPI [] fileBody fileName
               zeroValue ;;
      ret (UploadImageErrCode (fst res), UploadImageErrMessage (fst res), snd res)
  end.

(** Whether a request goes to the token endpoint, and how many of the
    requests sent did. *)
Definition isTokenRequest (req : Request) : bool :=
  String.prefix (WxWorkAppTokenAPI ++ "?") (URL req).

Definition tokenFetches (w : World) : nat :=
  length (List.filter isTokenRequest (sent w)).

(** What a caller does over time: calls, and pauses between them. *)
Inductive Event : Type :=
| Call (op : Operation)
| Sleep (d : N).

Definition sleep (d : N) : M unit :=
  fun s =>
    (tt, (fst s, {| now := now (snd s) + Z.of_N d; pending := pending (snd s);
                    sent := sent (snd s) |})).

(** A run of events from a state; the errors of the calls, in order. *)
Fixpoint run (evs : list Event) : M (list (option string)) :=
  match evs with
  | [] => ret []
  | Call op :: evs' =>
      err <- perform op ;; errs <- run evs' ;; ret (err :: errs)
  | Sleep d :: evs' => _ <- sleep d ;; run evs'
  end.

(** The token is usable at [t]: the refresh condition is false. *)
Definition usable (r : WxWorkApp) (t : Time) : bool :=
  negb (String.eqb (accessToken r) EmptyString) && negb (After t (expiredAt r)).

(** Every call of the run is issued while the token is usable. *)
Fixpoint issuedWhileUsable (evs : list Event) (s : WxWorkApp * World) : Prop :=
  match evs with
  | [] => True
  | Call op :: evs' =>
      usable (fst s) (now (snd s)) = true
      /\ issuedWhileUsable evs' (snd (perform op s))
  | Sleep d :: evs' => issuedWhileUsable evs' (snd (sleep d s))
  end.

(** ** The operations at a glance

    What the proofs below read off the code of the seven operations: the
    request each one builds, and what each makes of the answer. *)

(** The error of [refreshAccessToken], as the token block returns it. *)
Definition wrapRefresh (res : option string * (WxWorkApp * World))
  : option string * (WxWorkApp * World) :=
  match fst res with
  | Some e => (Some ("refresh access token error, " ++ e), snd res)
  | None => (None, snd res)
  end.

Definition methodOf (op : Operation) : string :=
  match op with
  | OpGetGroupChat _ => MethodGet
  | _ => MethodPost
  end.

Definition paramsOf (op : Operation) : list (string * string) :=
  match op with
  | OpGetGroupChat chatID => [("chatid", chatID)]
  | OpUploadMedia _ _ fileType => [("type", fileType)]
  | _ => []
  end.

Definition bodyOf (op : Operation) : option Payload :=
  match op with
  | OpSendMessage m | OpSendGroupMessage m =>
      match m with
      | Some v => let '(reqBody, _) := Marshal v in Some reqBody
      | None => None
      end
  | OpCreateGroupChat name ownerID userIDList options =>
      Some (JSONText (GoMap
        ([("name", GoString name); ("owner", GoString ownerID);
          ("userlist", GoStrings userIDList)]
         ++ match options with
            | Some o => [("chatid", GoString (OptChatID o))]
            | None => []
            end)%list))
  | OpUpdateGroupChat chatID options =>
      Some (JSONText (GoMap
        ([("chatid", GoString chatID)]
         ++ match options with
            | Some o =>
                [("name", GoString (OptName o)); ("owner", GoString (OptOwner o));
                 ("add_user_list", GoStrings (AddUserList o));
                 ("del_user_list", GoStrings (DelUserList o))]
            | None => []
            end)%list))
  | OpGetGroupChat _ => None
  | OpUploadMedia fileBody fileName _ | OpUploadImage fileBody fileName =>
      Some (FormFile "media" fileName fileBody)
  end.

Definition isUpload (op : Operation) : bool :=
  match op with
  | OpUploadMedia _ _ _ | OpUploadImage _ _ => true
  | _ => false
  end.

(** The request an operation sends when the cached token is [token]. *)
Definition requestOf (op : Operation) (token : string) : Request :=
  {| Method := methodOf op;
     URL := endpoint op ++ "?" ++ Encode (queryOf token (paramsOf op));
     Header := [("Content-Type",
                 if isUpload op then "multipart/form-data" else "application/json")];
     ReqBody := bodyOf op |}.

(** The request [refreshAccessToken] sends. *)
Definition tokenRequest (r : WxWorkApp) : Request :=
  {| Method := MethodGet;
     URL := WxWorkAppTokenAPI ++ "?corpid=" ++ corpID r
              ++ "&corpsecret=" ++ corpSecret r;
     Header := []; ReqBody := None |}.

(** The credentials make a URL [http.NewRequest] accepts. *)
Definition credentialsOK (r : WxWorkApp) : bool :=
  negb (stringContainsCTLByte (corpID r)) && negb (stringContainsCTLByte (corpSecret r)).

(** The stage prefix of the error for a status other than 200. *)
Definition statusPrefix (op : Operation) : string :=
  if isUpload op then "wxwork app request error, " else "wxwork request error, ".

(** What a dispatcher makes of the answer to its request: the code and
    message of the envelope it decoded into, and its error. *)
Definition envelopeOf (prefix : string) (res : Response + string)
  : Z * string * option string :=
  match res with
  | inr getErr => (0, EmptyString, Some ("get response error, " ++ getErr))
  | inl resp =>
      if negb (StatusCode resp =? StatusOK)
      then (0, EmptyString, Some (prefix ++ Status resp))
      else match RespBody resp with
           | Document f => (errcode f, errmsg f, None)
           | Malformed msg partial =>
               (errcode partial, errmsg partial, Some ("parse response error, " ++ msg))
           end
  end.

(** What an operation makes of what its dispatcher returned. *)
Definition judged (api : string) (res : Z * string * option string * (WxWorkApp * World))
  : option string * (WxWorkApp * World) :=
  let '(code, message, err, (r, w)) := res in
  match err with
  | Some e => (Some e, (r, w))
  | None =>
      if code =? WxWorkAppStatusOK then (None, (r, w))
      else (Some (apiError api code message),
            (if code =? WxWorkCodeAccessTokenExpired
             then setAccessToken r EmptyString else r, w))
  end.

(** The world after a client has sent [req] and got its answer. *)
Definition exchanged (c : Client) (req : Request) (w : World) : World :=
  snd (Do c req w).

(** What [refreshAccessToken] makes of the answer of the token endpoint. *)
Definition tokenOutcome (res : Response + string) : WxWorkAppTokenResp + string :=
  match res with
  | inr getErr => inr ("get response error, " ++ getErr)
  | inl resp =>
      if negb (StatusCode resp =? StatusOK)
      then inr ("wxwork request error, " ++ Status resp)
      else match RespBody resp with
           | Malformed msg _ => inr ("parse response error, " ++ msg)
           | Document f =>
               if negb (errcode f =? WxWorkAppStatusOK)
               then inr ("call wxwork app api error, " ++ formatInt (errcode f)
                           ++ " " ++ errmsg f)
               else inl (fill f)
           end
  end.

(** The application after a refresh has stored [t] at instant [at_]. *)
Definition stored (r : WxWorkApp) (t : WxWorkAppTokenResp) (at_ : Time) : WxWorkApp :=
  setExpiredAt (setAccessToken r (AccessToken t))
               (Add at_ (mulDuration Second (ExpiresIn t))).

(** The token block of a call issued in state [s] runs
    [refreshAccessToken]. *)
Definition refreshes (s : WxWorkApp * World) : Prop :=
  checkToken s = wrapRefresh (refreshAccessToken s).

(** A status of the 2xx class. *)
Definition is2xx (code : Z) : Prop := 200 <= code < 300.

(** ** The helpers at a glance *)

(** What a helper is given to send, one case per message type. *)
Inductive Message : Type :=
| TextMessage (content : string)
| MarkdownMessage (content : string)
| ImageMessage (mediaID : string)
| VoiceMessage (mediaID : string)
| VideoMessage (mediaID mediaTitle mediaDescription : string)
| FileMessage (mediaID : string)
| TextCardMessage (title description link btnText : string).

(** The helper for users and the helper for a group of each message
    type. *)
Definition sendTo (m : Message) (userIDList partyIDList tagIDList : list string)
  (options : option WxWorkAppMessageSendOptions)
  : M (WxWorkAppMessageResp * option string) :=
  match m with
  | TextMessage c => SendTextMessage userIDList partyIDList tagIDList c options
  | MarkdownMessage c => SendMarkdownMessage userIDList partyIDList tagIDList c options
  | ImageMessage i => SendImageMessage userIDList partyIDList tagIDList i options
  | VoiceMessage i => SendVoiceMessage userIDList partyIDList tagIDList i options
  | VideoMessage i t d => SendVideoMessage userIDList partyIDList tagIDList i t d options
  | FileMessage i => SendFileMessage userIDList partyIDList tagIDList i options
  | TextCardMessage t d u b =>
      SendTextCardMessage userIDList partyIDList tagIDList t d u b options
  end.

Definition sendToGroup (m : Message) (chatID : string)
  (options : option WxWorkAppMessageSendOptions) : M (option string) :=
  match m with
  | TextMessage c => SendGroupTextMessage chatID c options
  | MarkdownMessage c => SendGroupMarkdownMessage chatID c options
  | ImageMessage i => SendGroupImageMessage chatID i options
  | VoiceMessage i => SendGroupVoiceMessage chatID i options
  | VideoMessage i t d => SendGroupVideoMessage chatID i t d options
  | FileMessage i => SendGroupFileMessage chatID i options
  | TextCardMessage t d u b => SendGroupTextCardMessage chatID t d u b options
  end.

Definition msgtypeOf (m : Message) : string :=
  match m with
  | TextMessage _ => WxWorkAppMessageTypeText
  | MarkdownMessage _ => WxWorkAppMessageTypeMarkdown
  | ImageMessage _ => WxWorkAppMessageTypeImage
  | VoiceMessage _ => WxWorkAppMessageTypeVoice
  | VideoMessage _ _ _ => WxWorkAppMessageTypeVideo
  | FileMessage _ => WxWorkAppMessageTypeFile
  | TextCardMessage _ _ _ _ => WxWorkAppMessageTypeTextCard
  end.

(** [m[key]] on a message object. *)
Fixpoint field (key : string) (kvs : list (string * GoValue)) : option GoValue :=
  match kvs with
  | [] => None
  | (k, v) :: kvs' => if String.eqb k key then Some v else field key kvs'
  end.

(** What a dispatcher returns for the answer to its request: the struct
    it was given, filled or not, and its error. *)
Definition received {T : Type} `{RespObject T} (prefix : string) (respObject : T)
  (res : Response + string) : T * option string :=
  match res with
  | inr getErr => (respObject, Some ("get response error, " ++ getErr))
  | inl resp =>
      if negb (StatusCode resp =? StatusOK)
      then (respObject, Some (prefix ++ Status resp))
      else match RespBody resp with
           | Document f => (fill f, None)
           | Malformed msg partial =>
               (fill partial, Some ("parse response error, " ++ msg))
           end
  end.

(** An answer the operations accept: status 200, a document, code 0. *)
Definition accepted (res : Response + string) (f : Fields) : Prop :=
  exists resp, res = inl resp /\ StatusCode resp = StatusOK
               /\ RespBody resp = Document f /\ errcode f = WxWorkAppStatusOK.

(** The bytes an escaped query component is made of: letters, digits,
    [-_.~], and the [%] and [+] of the escapes. *)
Definition queryByte (c : ascii) : bool :=
  negb (shouldEscape c) || Ascii.eqb c "%" || Ascii.eqb c "+".

Fixpoint allBytes (p : ascii -> bool) (s : string) : bool :=
  match s with
  | EmptyString => true
  | String c s' => p c && allBytes p s'
  end.

(** ** Sample servers and clients *)

Definition okResponse (f : Fields) : Response :=
  {| StatusCode := 200; Status := "200 OK"; RespBody := Document f |}.

Definition statusResponse (code : Z) (status : string) (f : Fields) : Response :=
  {| StatusCode := code; Status := status; RespBody := Document f |}.

Definition after (d : N) (resp : Response) : Exchange :=
  {| elapsed := d; reply := inr resp |}.

(** The members of a token response, of a bare envelope and of a media
    upload response. *)
Definition tokenFields (code : Z) (message token : string) (lifetime : Z) : Fields :=
  {| errcode := code; errmsg := message; access_token := token;
     expires_in := lifetime; invaliduser := EmptyString;
     invalidparty := EmptyString; invalidtag := EmptyString;
     chatid := EmptyString; chat_info := zeroGroup; type_ := EmptyString;
     media_id := EmptyString; created_at := EmptyString; url := EmptyString |}.

Definition envelope (code : Z) (message : string) : Fields :=
  tokenFields code message EmptyString 0.

Definition mediaFields (id created : string) : Fields :=
  {| errcode := 0; errmsg := "ok"; access_token := EmptyString;
     expires_in := 0; invaliduser := EmptyString;
     invalidparty := EmptyString; invalidtag := EmptyString;
     chatid := EmptyString; chat_info := zeroGroup; type_ := "image";
     media_id := id; created_at := created; url := EmptyString |}.

Definition worldAt (t : Time) (answers : list Exchange) : World :=
  {| now := t; pending := answers; sent := [] |}.

Definition sampleApp : WxWorkApp := NewWxWorkApp "corp" "secret" "1000002".

(** An application holding token [abc] until instant 100. *)
Definition cachedApp : WxWorkApp :=
  setExpiredAt (setAccessToken sampleApp "abc") 100.

Definition textMessage : option GoValue :=
  Some (GoMap [("touser", GoString "alice"); ("msgtype", GoString "text");
               ("agentid", GoString "1000002");
               ("text", GoMap [("content", GoString "hello")])]).


(** The scenario of the specification: the token endpoint grants
    [abc] for 10 seconds; the first send fetches the token and posts the
    message, a second send 5 seconds later only posts. *)
Definition scenarioWorld : World :=
  worldAt 1000 [after 3 (okResponse (tokenFields 0 "ok" "abc" 10));
                after 2 (okResponse (envelope 0 "ok"));
                after 2 (okResponse (envelope 0 "ok"))].

(** A token endpoint that refuses twice, in two ways, and one that
    grants [abc] for 10 seconds. *)
Definition refusingWorld : World :=
  worldAt 0 [after 1 (okResponse (tokenFields 40013 "invalid corpid" EmptyString 0));
             after 1 (statusResponse 500 "500 Internal Server Error" zeroFields)].

Definition grantingWorld : World :=
  worldAt 0 [after 1 (okResponse (tokenFields 0 "ok" "abc" 10))].

(** ** Goroutines on one application

    Several goroutines run the token block of [fireRequest] and
    [uploadFile] on one [*WxWorkApp], up to the read of the token for the
    query string.  A configuration holds the shared application and
    world, whether [tokenRefreshLock] is held, and where each goroutine
    stands; a step runs one goroutine up to its next access to what is
    shared.  Memory is sequentially consistent. *)
Module Goroutines.

(** Where a goroutine stands, with its local variables. *)
Inductive PC : Type :=
| AtCheck                                (* the check outside the lock *)
| AtLock                                 (* r.tokenRefreshLock.Lock() *)
| AtRecheck                              (* the check inside the lock *)
| AtRefresh                              (* refreshAccessToken: the exchange *)
| AtSetToken (resp : WxWorkAppTokenResp) (* r.accessToken = ... *)
| AtSetExpiry (resp : WxWorkAppTokenResp)  (* r.expiredAt = ... *)
| AtUnlock (err : option string)         (* r.tokenRefreshLock.Unlock() *)
| AtErrCheck (err : option string)       (* if err != nil *)
| AtQuery                                (* queryString.Add(access_token, r.accessToken) *)
| Done (outcome : string + string).      (* the token put in the query, or the error *)

Record Config : Type := {
  receiver : WxWorkApp;
  world : World;
  locked : bool;
  goroutines : list PC
}.

Definition move (c : Config) (i : nat) (pc : PC) : Config :=
  {| receiver := receiver c; world := world c; locked := locked c;
     goroutines := <[i := pc]> (goroutines c) |}.

Definition withReceiver (c : Config) (r : WxWorkApp) : Config :=
  {| receiver := r; world := world c; locked := locked c; goroutines := goroutines c |}.

Definition withWorld (c : Config) (w : World) : Config :=
  {| receiver := receiver c; world := w; locked := locked c; goroutines := goroutines c |}.

Definition withLock (c : Config) (b : bool) : Config :=
  {| receiver := receiver c; world := world c; locked := b; goroutines := goroutines c |}.

(** One step of goroutine [i]; [None] when it cannot move: it waits
    for the lock, has returned, or does not exist. *)
Definition step (i : nat) (c : Config) : option Config :=
  match goroutines c !! i with
  | None => None
  | Some AtCheck =>
      if fst (tokenMissingOrExpired (receiver c, world c))
      then Some (move c i AtLock) else Some (move c i AtQuery)
  | Some AtLock =>
      if locked c then None else Some (move (withLock c true) i AtRecheck)
  | Some AtRecheck =>
      if fst (tokenMissingOrExpired (receiver c, world c))
      then Some (move c i AtRefresh) else Some (move c i (AtUnlock None))
  | Some AtRefresh =>
      let '(res, (_, w)) := requestToken (receiver c, world c) in
      match res with
      | inr err => Some (move (withWorld c w) i (AtUnlock (Some err)))
      | inl resp => Some (move (withWorld c w) i (AtSetToken resp))
      end
  | Some (AtSetToken resp) =>
      Some (move (withReceiver c (setAccessToken (receiver c) (AccessToken resp))) i
              (AtSetExpiry resp))
  | Some (AtSetExpiry resp) =>
      Some (move (withReceiver c (setExpiredAt (receiver c)
                    (Add (now (world c)) (mulDuration Second (ExpiresIn resp)))))
              i (AtUnlock None))
  | Some (AtUnlock err) => Some (move (withLock c false) i (AtErrCheck err))
  | Some (AtErrCheck (Some e)) =>
      Some (move c i (Done (inr ("refresh access token error, " ++ e))))
  | Some (AtErrCheck None) => Some (move c i AtQuery)
  | Some AtQuery => Some (move c i (Done (inl (accessToken (receiver c)))))
  | Some (Done _) => None
  end.

(** The scheduler's choices: run a goroutine for a step, or let time
    pass. *)
Inductive Choice : Type :=
| Run (i : nat)
| Tick (d : N).

Definition tick (d : N) (c : Config) : Config :=
  withWorld c {| now := now (world c) + Z.of_N d;
                 pending := pending (world c); sent := sent (world c) |}.

(** The configuration a schedule leads to, when each of its choices
    can be taken. *)
Fixpoint exec (sched : list Choice) (c : Config) : option Config :=
  match sched with
  | [] => Some c
  | Run i :: sched' =>
      match step i c with
      | Some c' => exec sched' c'
      | None => None
      end
  | Tick d :: sched' => exec sched' (tick d c)
  end.

(** [n] goroutines about to enter the block. *)
Definition start (n : nat) (r : WxWorkApp) (w : World) : Config :=
  {| receiver := r; world := w; locked := false; goroutines := replicate n AtCheck |}.

Definition returned (pc : PC) : bool :=
  match pc with Done _ => true | _ => false end.

Definition allReturned (c : Config) : bool := forallb returned (goroutines c).

(** The goroutines between [Lock] and [Unlock]. *)
Definition inSection (pc : PC) : bool :=
  match pc with
  | AtRecheck | AtRefresh | AtSetToken _ | AtSetExpiry _ | AtUnlock _ => true
  | _ => false
  end.

Definition holder (c : Config) (i : nat) : Prop :=
  exists pc, goroutines c !! i = Some pc /\ inSection pc = true.

(** The lock is held exactly while a goroutine is in the section, and
    no two goroutines are. *)
Definition LockInv (c : Config) : Prop :=
  (forall i, holder c i -> locked c = true)
  /\ (forall i j, holder c i -> holder c j -> i = j)
  /\ (locked c = true -> exists i, holder c i).

(** The steps that read or write [accessToken] or [expiredAt]. *)
Definition touchesToken (pc : PC) : bool :=
  match pc with
  | AtCheck | AtRecheck | AtSetToken _ | AtSetExpiry _ | AtQuery => true
  | _ => false
  end.

(** *** The course of one successful refresh

    When the token endpoint grants a token, a configuration is in one of
    four phases: no request sent yet; the grant [t] received and not
    yet written; the token written and the expiry not; both written.
    [allowed] lists where a goroutine can stand in each phase. *)
Inductive Phase : Type := BeforeFetch | Fetched | TokenSet | Stored.

Definition allowed (ph : Phase) (t : WxWorkAppTokenResp) (pc : PC) : Prop :=
  match ph, pc with
  | BeforeFetch, (AtCheck | AtLock | AtRecheck | AtRefresh) => True
  | Fetched, (AtCheck | AtLock) => True
  | Fetched, AtSetToken t' => t' = t
  | TokenSet, (AtCheck | AtLock | AtQuery) => True
  | TokenSet, AtSetExpiry t' => t' = t
  | TokenSet, Done out => out = inl (AccessToken t)
  | Stored, (AtCheck | AtLock | AtRecheck | AtQuery) => True
  | Stored, (AtUnlock err | AtErrCheck err) => err = None
  | Stored, Done out => out = inl (AccessToken t)
  | _, _ => False
  end.

Definition phaseState (ph : Phase) (r0 : WxWorkApp) (w0 : World)
  (t : WxWorkAppTokenResp) (c : Config) : Prop :=
  match ph with
  | BeforeFetch =>
      sent (world c) = sent w0 /\ pending (world c) = pending w0
      /\ accessToken (receiver c) = EmptyString
  | Fetched =>
      sent (world c) = (sent w0 ++ [tokenRequest r0])%list
      /\ accessToken (receiver c) = EmptyString /\ locked c = true
  | TokenSet =>
      sent (world c) = (sent w0 ++ [tokenRequest r0])%list
      /\ accessToken (receiver c) = AccessToken t /\ locked c = true
  | Stored =>
      sent (world c) = (sent w0 ++ [tokenRequest r0])%list
      /\ accessToken (receiver c) = AccessToken t
      /\ now w0 + Second * ExpiresIn t <= expiredAt (receiver c)
  end.

(** The fields no step writes. *)
Definition sameIdentity (r r0 : WxWorkApp) : Prop :=
  corpID r = corpID r0 /\ corpSecret r = corpSecret r0 /\ client r = client r0.

Record Inv (r0 : WxWorkApp) (w0 : World) (t : WxWorkAppTokenResp) (c : Config)
  : Prop := {
  inv_clock : now w0 <= now (world c);
  inv_identity : sameIdentity (receiver c) r0;
  inv_lock : LockInv c;
  inv_phase : exists ph, phaseState ph r0 w0 t c /\ Forall (allowed ph t) (goroutines c)
}.

(** An upper bound on the steps a goroutine has left, and their sum. *)
Definition remaining (pc : PC) : nat :=
  match pc with
  | AtCheck => 9 | AtLock => 8 | AtRecheck => 7 | AtRefresh => 6
  | AtSetToken _ => 5 | AtSetExpiry _ => 4 | AtUnlock _ => 3
  | AtErrCheck _ => 2 | AtQuery => 1 | Done _ => 0
  end.

Definition weight (c : Config) : nat := sum_list (map remaining (goroutines c)).

(** A complete run of two goroutines against the granting endpoint, and
    where it ends: goroutine 0 refreshes, goroutine 1, which had found
    the token absent, finds it inside the lock. *)
Definition grantedSchedule : list Choice :=
  [Run 0; Run 1; Run 0; Run 0; Run 0; Run 0; Run 0; Run 0; Run 0; Run 0;
   Run 1; Run 1; Run 1; Run 1; Run 1]%nat.

Definition grantedToken : WxWorkAppTokenResp := fill (tokenFields 0 "ok" "abc" 10).

Definition grantedEnd : Config :=
  {| receiver := stored sampleApp grantedToken 1;
     world := exchanged (client sampleApp) (tokenRequest sampleApp) grantingWorld;
     locked := false;
     goroutines := [Done (inl "abc"); Done (inl "abc")] |}.

(** The steps of goroutines in a schedule. *)
Definition runs (sched : list Choice) : nat :=
  length (List.filter (fun ch => match ch with Run _ => true | Tick _ => false end) sched).

(** Whether a goroutine can still come to call [refreshAccessToken]:
    it has not passed the call yet. *)
Definition mayFetch (pc : PC) : nat :=
  match pc with
  | AtCheck | AtLock | AtRecheck | AtRefresh => 1
  | _ => 0
  end.

(** What the token block leaves when it is run alone on [s]: the
    application and world of [checkToken], the lock free, and the
    goroutine returned, with the error of [checkToken] or the token it
    will put in the query. *)
Definition ranAlone (s : WxWorkApp * World) : Config :=
  let '(err, (r', w')) := checkToken s in
  {| receiver := r'; world := w'; locked := false;
     goroutines := [Done (match err with
                          | Some e => inr e
                          | None => inl (accessToken r')
                          end)] |}.

End Goroutines.

(** * Properties *)

(** ** The token check *)

Lemma String_eqb_empty (s : string) :
  String.eqb s EmptyString = true <-> s = EmptyString.
Proof. apply String.eqb_eq. Qed.

Lemma tokenMissingOrExpired_eq (r : WxWorkApp) (w : World) :
  tokenMissingOrExpired (r, w) = (negb (usable r (now w)), (r, w)).
Proof.
  unfold tokenMissingOrExpired, IsAccessTokenExpired, usable, bind, self, timeNow, ret.
  simpl. destruct (String.eqb (accessToken r) EmptyString); simpl.
  - reflexivity.
  - now rewrite negb_involutive.
Qed.

Lemma usable_spec (r : WxWorkApp) (t : Time) :
  usable r t = true <-> accessToken r <> EmptyString /\ t <= expiredAt r.
Proof.
  unfold usable, After. rewrite andb_true_iff, !negb_true_iff.
  rewrite Z.ltb_ge. split; intros [Hn Ht]; split; try assumption.
  - intros He. apply String_eqb_empty in He. congruence.
  - destruct (String.eqb (accessToken r) EmptyString) eqn:E; [|reflexivity].
    apply String_eqb_empty in E. contradiction.
Qed.

(** With a usable token the block does nothing at all. *)
Lemma checkToken_usable (r : WxWorkApp) (w : World) :
  usable r (now w) = true -> checkToken (r, w) = (None, (r, w)).
Proof.
  intros H. unfold checkToken, bind. rewrite tokenMissingOrExpired_eq, H. reflexivity.
Qed.

(** Without one it runs [refreshAccessToken] and wraps its error. *)
Lemma checkToken_stale (r : WxWorkApp) (w : World) :
  usable r (now w) = false ->
  checkToken (r, w) = wrapRefresh (refreshAccessToken (r, w)).
Proof.
  intros H. unfold checkToken, bind, wrapRefresh.
  rewrite tokenMissingOrExpired_eq, H. simpl.
  rewrite tokenMissingOrExpired_eq, H. simpl.
  destruct (refreshAccessToken (r, w)) as [[e|] s']; reflexivity.
Qed.

(** ** Control bytes and the query string *)

Lemma CTL_app (a b : string) :
  stringContainsCTLByte (a ++ b) = stringContainsCTLByte a || stringContainsCTLByte b.
Proof.
  induction a as [|c a IH]; simpl; [reflexivity|].
  rewrite IH. now rewrite orb_assoc.
Qed.

Lemma QueryEscape_noCTL (s : string) : stringContainsCTLByte (QueryEscape s) = false.
Proof.
  induction s as [|c s IH]; [reflexivity|].
  destruct c as [[] [] [] [] [] [] [] []]; simpl; rewrite ?IH; reflexivity.
Qed.

Lemma concat_noCTL (sep : string) (l : list string) :
  stringContainsCTLByte sep = false ->
  Forall (fun x => stringContainsCTLByte x = false) l ->
  stringContainsCTLByte (String.concat sep l) = false.
Proof.
  intros Hsep Hl. induction Hl as [|x l Hx Hl IH]; [reflexivity|].
  destruct l as [|y l]; simpl; [assumption|].
  rewrite !CTL_app, Hx, Hsep. simpl. exact IH.
Qed.

Lemma Encode_noCTL (v : Values) : stringContainsCTLByte (Encode v) = false.
Proof.
  unfold Encode. apply concat_noCTL; [reflexivity|].
  apply Forall_forall. intros x Hx. apply list_elem_of_In in Hx.
  apply in_flat_map in Hx. destruct Hx as [[k vs] [_ Hx]].
  apply in_map_iff in Hx. destruct Hx as [y [<- _]].
  rewrite CTL_app, QueryEscape_noCTL. simpl. apply QueryEscape_noCTL.
Qed.

(** ** The refresh *)

Lemma credentialsOK_url (r : WxWorkApp) :
  stringContainsCTLByte (URL (tokenRequest r)) = negb (credentialsOK r).
Proof.
  unfold credentialsOK, tokenRequest. cbn [URL].
  rewrite !CTL_app.
  change (stringContainsCTLByte WxWorkAppTokenAPI) with false.
  change (stringContainsCTLByte "?corpid=") with false.
  change (stringContainsCTLByte "&corpsecret=") with false.
  simpl. destruct (stringContainsCTLByte (corpID r)),
           (stringContainsCTLByte (corpSecret r)); reflexivity.
Qed.

Lemma requestToken_eq (r : WxWorkApp) (w : World) :
  credentialsOK r = true ->
  requestToken (r, w)
  = (tokenOutcome (answer (client r) w), (r, exchanged (client r) (tokenRequest r) w)).
Proof.
  intros Hc. unfold requestToken, bind, self, ret. cbn [fst snd].
  unfold NewRequest.
  change (WxWorkAppTokenAPI ++ "?corpid=" ++ corpID r ++ "&corpsecret=" ++ corpSecret r)
    with (URL (tokenRequest r)).
  rewrite credentialsOK_url, Hc. cbn [negb].
  unfold clientDo, exchanged, Do. cbn [fst snd].
  unfold tokenOutcome.
  destruct (answer (client r) w) as [resp|e]; [|reflexivity].
  destruct (negb (StatusCode resp =? StatusOK)); [reflexivity|].
  destruct (RespBody resp) as [f|msg partial]; cbn; [|reflexivity].
  destruct (errcode f =? WxWorkAppStatusOK); reflexivity.
Qed.

Lemma requestToken_bad_credentials (r : WxWorkApp) (w : World) :
  credentialsOK r = false ->
  exists e, requestToken (r, w) = (inr ("create request error, " ++ e), (r, w)).
Proof.
  intros Hc. unfold requestToken, bind, self, ret. cbn [fst snd].
  unfold NewRequest.
  change (WxWorkAppTokenAPI ++ "?corpid=" ++ corpID r ++ "&corpsecret=" ++ corpSecret r)
    with (URL (tokenRequest r)).
  rewrite credentialsOK_url, Hc. cbn [negb]. eexists. reflexivity.
Qed.

(** The exchange with the token endpoint never writes the application. *)
Lemma requestToken_app (r : WxWorkApp) (w : World) :
  fst (snd (requestToken (r, w))) = r.
Proof.
  destruct (credentialsOK r) eqn:Hc.
  - now rewrite requestToken_eq.
  - destruct (requestToken_bad_credentials r w Hc) as [e ->]. reflexivity.
Qed.

Lemma refreshAccessToken_eq (r : WxWorkApp) (w : World) :
  refreshAccessToken (r, w)
  = match requestToken (r, w) with
    | (inr e, s') => (Some e, s')
    | (inl t, (r', w')) => (None, (stored r' t (now w'), w'))
    end.
Proof.
  unfold refreshAccessToken, bind.
  destruct (requestToken (r, w)) as [[t|e] [r' w']]; reflexivity.
Qed.

(** A refresh that returns an error has written nothing. *)
Lemma refreshAccessToken_error_frame (r : WxWorkApp) (w : World) (e : string)
  (s' : WxWorkApp * World) :
  refreshAccessToken (r, w) = (Some e, s') -> fst s' = r.
Proof.
  rewrite refreshAccessToken_eq. pose proof (requestToken_app r w) as Hf.
  destruct (requestToken (r, w)) as [[t|e'] [r' w']]; intros H; inversion H.
  exact Hf.
Qed.

(** ** The operations, summarised *)

Lemma dispatch_eq (op : Operation) (r : WxWorkApp) (w : World) :
  dispatch op (r, w)
  = match checkToken (r, w) with
    | (Some e, s1) => ((0, EmptyString, Some e), s1)
    | (None, (r1, w1)) =>
        (envelopeOf (statusPrefix op) (answer (client r1) w1),
         (r1, exchanged (client r1) (requestOf op (accessToken r1)) w1))
    end.
Proof.
  destruct op as [m|n o l [opts|]|c [opts|]|c|m|b n t|b n];
    unfold dispatch, fireRequest, uploadFile, bind, self, ret;
    destruct (checkToken (r, w)) as [[e|] [r1 w1]]; try reflexivity;
    cbn [fst snd]; unfold NewRequest; rewrite !CTL_app, Encode_noCTL.
  all: match goal with
       | |- context [stringContainsCTLByte ?c || (stringContainsCTLByte "?" || false)] =>
           change (stringContainsCTLByte c || (stringContainsCTLByte "?" || false))
             with false
       end.
  all: cbv beta iota; unfold clientDo, exchanged, Do, envelopeOf, statusPrefix;
    cbn [fst snd isUpload].
  all: destruct (answer (client r1) w1) as [resp|getErr]; [|reflexivity].
  all: destruct (negb (StatusCode resp =? StatusOK)); [reflexivity|].
  all: destruct (RespBody resp) as [f|msg partial]; reflexivity.
Qed.

Lemma perform_dispatch (op : Operation) (s : WxWorkApp * World) :
  perform op s = judged (apiName op) (dispatch op s).
Proof.
  destruct op; unfold perform, dispatch, judged, sendMessage, CreateGroupChat,
    UpdateGroupChat, GetGroupChat, sendGroupMessage, UploadMedia, UploadImage,
    bind, ret.
  all: match goal with
       | |- context [fireRequest ?a ?b ?c ?d ?e ?s] =>
           destruct (fireRequest a b c d e s) as [[v [e'|]] [r w]]
       | |- context [uploadFile ?a ?b ?c ?d ?e ?f ?s] =>
           destruct (uploadFile a b c d e f s) as [[v [e'|]] [r w]]
       end; cbn [fst snd]; try reflexivity.
  all: match goal with
       | |- context [negb (?c =? WxWorkAppStatusOK)] =>
           destruct (c =? WxWorkAppStatusOK); cbn [negb];
           unfold resetIfExpired, modify, ret;
           [|destruct (c =? WxWorkCodeAccessTokenExpired); reflexivity]
       end.
  all: try reflexivity.
  destruct (ParseInt (CreatedAt v)); reflexivity.
Qed.

(** ** Counting the requests to the token endpoint *)

Lemma isTokenRequest_requestOf (op : Operation) (token : string) :
  isTokenRequest (requestOf op token) = false.
Proof. destruct op; vm_compute; reflexivity. Qed.

Lemma isTokenRequest_tokenRequest (r : WxWorkApp) :
  isTokenRequest (tokenRequest r) = true.
Proof. vm_compute; reflexivity. Qed.

Lemma tokenFetches_exchanged (c : Client) (req : Request) (w : World) :
  tokenFetches (exchanged c req w)
  = (tokenFetches w + (if isTokenRequest req then 1 else 0))%nat.
Proof.
  unfold tokenFetches, exchanged, Do. cbn [snd sent].
  rewrite List.filter_app, length_app. cbn [List.filter].
  destruct (isTokenRequest req); reflexivity.
Qed.

Lemma sent_exchanged (c : Client) (req : Request) (w : World) :
  sent (exchanged c req w) = (sent w ++ [req])%list.
Proof. reflexivity. Qed.

Lemma now_exchanged (c : Client) (req : Request) (w : World) :
  now (exchanged c req w) = now w + waited c w.
Proof. reflexivity. Qed.

Lemma waited_nonneg (c : Client) (w : World) : 0 <= waited c w.
Proof.
  unfold waited. destruct (pending w) as [|x rest]; [lia|].
  unfold timedOut. destruct (0 <? Timeout c) eqn:E; cbn [andb]; [|lia].
  destruct (Timeout c <? Z.of_N (elapsed x)); [|lia].
  apply Z.ltb_lt in E. lia.
Qed.

(** ** C1: when the cached token is usable *)

(** C1, as the claim states it, fails at the expiry instant: with token
    [abc] recorded to expire at instant 100, a call issued at instant 100
    finds the token usable and goes to the message endpoint without any
    refresh. *)
Lemma expiry_instant_still_usable :
  now (worldAt 100 []) = expiredAt cachedApp
  /\ fst (tokenMissingOrExpired (cachedApp, worldAt 100 [])) = false
  /\ map URL (sent (snd (snd (perform (OpSendMessage textMessage)
                 (cachedApp, worldAt 100 [after 1 (okResponse (envelope 0 "ok"))])))))
     = ["https://qyapi.weixin.qq.com/cgi-bin/message/send?access_token=abc"].
Proof. vm_compute. repeat split; reflexivity. Qed.

(** C1 (amended): the cached token is usable if and only if it is
    non-empty and the current time is not after the recorded expiry.  At
    exactly the expiry instant a non-empty token is still used and no
    refresh happens; once the clock is past the expiry, or the token is
    empty, the token block runs the refresh. *)
Theorem token_usable_iff_not_after_expiry (r : WxWorkApp) (w : World) :
  (fst (tokenMissingOrExpired (r, w)) = false
   <-> accessToken r <> EmptyString /\ now w <= expiredAt r)
  /\ (accessToken r <> EmptyString -> now w = expiredAt r ->
      checkToken (r, w) = (None, (r, w)))
  /\ (accessToken r = EmptyString \/ expiredAt r < now w -> refreshes (r, w)).
Proof.
  rewrite tokenMissingOrExpired_eq. cbn [fst]. rewrite negb_false_iff.
  split; [apply usable_spec|]. split.
  - intros Hn Ht. apply checkToken_usable, usable_spec. split; [assumption|lia].
  - intros H. apply checkToken_stale.
    destruct (usable r (now w)) eqn:E; [|reflexivity].
    apply usable_spec in E. destruct E as [Hn Ht].
    destruct H as [H|H]; [contradiction|lia].
Qed.

Lemma token_usable_iff_not_after_expiry_witness :
  checkToken (cachedApp, worldAt 100 []) = (None, (cachedApp, worldAt 100 []))
  /\ refreshes (cachedApp, worldAt 101 []).
Proof.
  destruct (token_usable_iff_not_after_expiry cachedApp (worldAt 100 []))
    as [_ [Hat _]].
  destruct (token_usable_iff_not_after_expiry cachedApp (worldAt 101 []))
    as [_ [_ Hpast]].
  split.
  - apply Hat; [discriminate|reflexivity].
  - apply Hpast. right. reflexivity.
Defined.

(** ** What a dispatcher's success means, and what follows a reset *)

Lemma dispatch_ok_inv (op : Operation) (s s1 : WxWorkApp * World) (code : Z)
  (message : string) :
  dispatch op s = ((code, message, None), s1) ->
  exists r1 w1 resp f,
    checkToken s = (None, (r1, w1))
    /\ answer (client r1) w1 = inl resp
    /\ StatusCode resp = StatusOK
    /\ RespBody resp = Document f
    /\ errcode f = code /\ errmsg f = message
    /\ s1 = (r1, exchanged (client r1) (requestOf op (accessToken r1)) w1).
Proof.
  destruct s as [r w]. rewrite dispatch_eq.
  destruct (checkToken (r, w)) as [[e|] [r1 w1]] eqn:Hc; [discriminate|].
  unfold envelopeOf.
  destruct (answer (client r1) w1) as [resp|getErr] eqn:Ha; [|discriminate].
  destruct (StatusCode resp =? StatusOK) eqn:Hs; cbn [negb]; [|discriminate].
  destruct (RespBody resp) as [f|msg partial] eqn:Hb; [|discriminate].
  intros H. inversion H; subst. apply Z.eqb_eq in Hs.
  exists r1, w1, resp, f. repeat split; assumption || reflexivity.
Qed.

Lemma judged_world (api : string) (res : Z * string * option string * (WxWorkApp * World)) :
  snd (snd (judged api res)) = snd (snd res).
Proof.
  destruct res as [[[code message] [e|]] [r w]]; cbn; [reflexivity|].
  destruct (code =? WxWorkAppStatusOK); reflexivity.
Qed.

Lemma refreshes_empty (r : WxWorkApp) (w : World) :
  accessToken r = EmptyString -> refreshes (r, w).
Proof.
  intros H. apply checkToken_stale. unfold usable. rewrite H. reflexivity.
Qed.

(** A call whose token block refreshes sends the token request first. *)
Lemma refreshing_call_asks_token_first (op : Operation) (r : WxWorkApp) (w : World) :
  refreshes (r, w) -> credentialsOK r = true ->
  exists rest,
    sent (snd (snd (perform op (r, w)))) = (sent w ++ tokenRequest r :: rest)%list.
Proof.
  intros Hr Hc. rewrite perform_dispatch, judged_world, dispatch_eq.
  unfold refreshes in Hr. rewrite Hr, refreshAccessToken_eq, requestToken_eq by assumption.
  unfold wrapRefresh.
  destruct (tokenOutcome (answer (client r) w)) as [t|e]; cbn [fst snd].
  - exists [requestOf op (accessToken (stored r t (now (exchanged (client r) (tokenRequest r) w))))].
    rewrite !sent_exchanged, <- app_assoc. reflexivity.
  - exists []. apply sent_exchanged.
Qed.

(** ** C2: the expiry code resets the cached token *)



(** ** C4: which answers are decoded *)

(** C4, as the claim states it, fails on a 2xx status other than 200:
    answered [201 Created] with a well-formed envelope, [fireRequest]
    reports the status as an error and leaves the caller's struct as it
    was, the envelope unread. *)
Lemma status_201_is_not_decoded :
  let f := tokenFields 7 "late" EmptyString 0 in
  is2xx 201
  /\ fst (fireRequest MethodPost WxWorkAppMessageAPI [] textMessage
            (zeroValue : WxWorkAppMessageResp)
            (cachedApp, worldAt 50 [after 1 (statusResponse 201 "201 Created" f)]))
     = (zeroValue, Some "wxwork request error, 201 Created")
  /\ (fill f : WxWorkAppMessageResp) <> zeroValue.
Proof.
  cbv zeta. split; [unfold is2xx; lia|]. split; [vm_compute; reflexivity|].
  vm_compute. discriminate.
Qed.

(** C4 (amended): for both dispatchers, once the token block has passed
    and the request is answered, any status other than 200 is reported
    as an error that carries the status line, the caller's struct left
    untouched; on status 200 the body is decoded into the caller's
    struct, and a body that does not decode gives the distinct error
    [parse response error]. *)
Theorem only_status_200_is_decoded (T : Type) (obj : RespObject T)
  (reqMethod reqURL : string) (reqParams : list (string * string))
  (reqBodyObject : option GoValue) (fileBody : list Byte.byte) (fileName : string)
  (respObject : T) (r r1 : WxWorkApp) (w w1 : World) (resp : Response) :
  stringContainsCTLByte reqURL = false ->
  checkToken (r, w) = (None, (r1, w1)) ->
  answer (client r1) w1 = inl resp ->
  let fired := fst (fireRequest reqMethod reqURL reqParams reqBodyObject respObject (r, w)) in
  let uploaded := fst (uploadFile reqMethod reqURL reqParams fileBody fileName respObject (r, w)) in
  (StatusCode resp <> 200 ->
     fired = (respObject, Some ("wxwork request error, " ++ Status resp))
     /\ uploaded = (respObject, Some ("wxwork app request error, " ++ Status resp)))
  /\ (forall f, StatusCode resp = 200 -> RespBody resp = Document f ->
        fired = (fill f, None) /\ uploaded = (fill f, None))
  /\ (forall msg partial, StatusCode resp = 200 -> RespBody resp = Malformed msg partial ->
        snd fired = Some ("parse response error, " ++ msg)
        /\ snd uploaded = Some ("parse response error, " ++ msg)).
Proof.
  intros Hu Hc Ha fired uploaded. subst fired uploaded.
  unfold fireRequest, uploadFile, bind, self, ret. rewrite Hc. cbn [fst snd].
  unfold NewRequest. rewrite !CTL_app, Encode_noCTL, Hu.
  change (stringContainsCTLByte "?") with false. cbn [orb].
  unfold clientDo, Do. cbn [fst snd]. rewrite Ha. unfold StatusOK.
  split; [|split].
  - intros Hs. apply Z.eqb_neq in Hs. rewrite Hs. split; reflexivity.
  - intros f Hs Hb. rewrite Hs, Hb. split; reflexivity.
  - intros msg partial Hs Hb. rewrite Hs, Hb. split; reflexivity.
Qed.

Lemma only_status_200_is_decoded_witness :
  fst (fireRequest MethodPost WxWorkAppMessageAPI [] textMessage
         (zeroValue : WxWorkAppMessageResp)
         (cachedApp, worldAt 50 [after 1 (statusResponse 502 "502 Bad Gateway" zeroFields)]))
  = (zeroValue, Some "wxwork request error, 502 Bad Gateway").
Proof.
  refine (proj1 (proj1 (only_status_200_is_decoded WxWorkAppMessageResp _
            MethodPost WxWorkAppMessageAPI [] textMessage [] EmptyString zeroValue
            cachedApp cachedApp
            (worldAt 50 [after 1 (statusResponse 502 "502 Bad Gateway" zeroFields)])
            (worldAt 50 [after 1 (statusResponse 502 "502 Bad Gateway" zeroFields)])
            (statusResponse 502 "502 Bad Gateway" zeroFields) _ _ _) _)).
  - vm_compute; reflexivity.
  - vm_compute; reflexivity.
  - vm_compute; reflexivity.
  - cbn. discriminate.
Defined.

(** ** C5 and C6: what a refresh writes *)

Lemma wrap64_small (z : Z) : inInt64 z -> wrap64 z = z.
Proof.
  unfold inInt64, wrap64. intros H.
  rewrite Z.mod_small by lia. lia.
Qed.

Lemma usable_later (r : WxWorkApp) (t t' : Time) :
  usable r t = false -> t <= t' -> usable r t' = false.
Proof.
  intros H Hle. destruct (usable r t') eqn:E; [|reflexivity].
  apply usable_spec in E. destruct E as [Hn Ht].
  assert (usable r t = true) by (apply usable_spec; split; [assumption|lia]).
  congruence.
Qed.

Lemma refresh_sends_one_request (r : WxWorkApp) (w : World) :
  credentialsOK r = true ->
  snd (snd (refreshAccessToken (r, w))) = exchanged (client r) (tokenRequest r) w.
Proof.
  intros Hc. rewrite refreshAccessToken_eq, requestToken_eq by assumption.
  destruct (tokenOutcome (answer (client r) w)); reflexivity.
Qed.

(** C5: when the token endpoint answers with an envelope whose code is
    not zero, [refreshAccessToken] returns the error that carries the
    code and the message and leaves the application, cached token and
    expiry included, exactly as it was; a later call that finds the token
    missing or expired as before runs the refresh again, with a new
    request to the token endpoint. *)
Theorem failed_refresh_leaves_cache (r : WxWorkApp) (w : World) (resp : Response)
  (f : Fields) :
  credentialsOK r = true ->
  answer (client r) w = inl resp ->
  StatusCode resp = 200 ->
  RespBody resp = Document f ->
  errcode f <> 0 ->
  refreshAccessToken (r, w)
  = (Some ("call wxwork app api error, " ++ formatInt (errcode f) ++ " " ++ errmsg f),
     (r, exchanged (client r) (tokenRequest r) w))
  /\ (forall w2, usable r (now w) = false -> now w <= now w2 ->
        refreshes (r, w2)
        /\ sent (snd (snd (refreshAccessToken (r, w2))))
           = (sent w2 ++ [tokenRequest r])%list).
Proof.
  intros Hc Ha Hs Hb He. split.
  - rewrite refreshAccessToken_eq, requestToken_eq by assumption.
    unfold tokenOutcome. rewrite Ha, Hs, Hb. cbn [negb Z.eqb StatusOK].
    change (200 =? StatusOK) with true. cbn [negb].
    apply Z.eqb_neq in He. unfold WxWorkAppStatusOK. rewrite He. reflexivity.
  - intros w2 Hu Hle. split.
    + apply checkToken_stale. eapply usable_later; eassumption.
    + rewrite refresh_sends_one_request by assumption. apply sent_exchanged.
Qed.

Lemma failed_refresh_leaves_cache_witness :
  refreshAccessToken
    (sampleApp, worldAt 0 [after 1 (okResponse (tokenFields 40013 "invalid corpid" EmptyString 0))])
  = (Some "call wxwork app api error, 40013 invalid corpid",
     (sampleApp,
      exchanged (client sampleApp) (tokenRequest sampleApp)
        (worldAt 0 [after 1 (okResponse (tokenFields 40013 "invalid corpid" EmptyString 0))]))).
Proof.
  refine (proj1 (failed_refresh_leaves_cache sampleApp _
            (okResponse (tokenFields 40013 "invalid corpid" EmptyString 0))
            (tokenFields 40013 "invalid corpid" EmptyString 0) _ _ _ _ _)).
  - vm_compute; reflexivity.
  - vm_compute; reflexivity.
  - reflexivity.
  - reflexivity.
  - cbn. discriminate.
Defined.



(** Beyond that range the product wraps around: a lifetime of
    9223372037 seconds records an expiry in the past. *)
Example lifetime_wraps_around :
  mulDuration Second 9223372037 = - 9223372036709551616.
Proof. vm_compute. reflexivity. Qed.

(** ** C7: the failure path writes nothing *)

Lemma perform_status_error (op : Operation) (r r1 : WxWorkApp) (w w1 : World)
  (resp : Response) :
  checkToken (r, w) = (None, (r1, w1)) ->
  answer (client r1) w1 = inl resp ->
  StatusCode resp <> 200 ->
  perform op (r, w)
  = (Some (statusPrefix op ++ Status resp),
     (r1, exchanged (client r1) (requestOf op (accessToken r1)) w1)).
Proof.
  intros Hc Ha Hs. rewrite perform_dispatch, dispatch_eq, Hc.
  unfold envelopeOf. rewrite Ha. apply Z.eqb_neq in Hs. unfold StatusOK.
  rewrite Hs. reflexivity.
Qed.

(** C7: a status outside the 2xx class yields an error that carries the
    status line and writes neither the cached token nor its expiry.  On
    the token endpoint the refresh returns with the application as it
    was.  On the endpoint of an operation the application is what the
    token block had left when the request went out; in particular, for
    a call issued with a usable token, it is what it was before the
    call. *)
Theorem non_2xx_leaves_token (op : Operation) (r : WxWorkApp) (w : World)
  (resp : Response) :
  ~ is2xx (StatusCode resp) ->
  (credentialsOK r = true -> answer (client r) w = inl resp ->
     refreshAccessToken (r, w)
     = (Some ("wxwork request error, " ++ Status resp),
        (r, exchanged (client r) (tokenRequest r) w)))
  /\ (forall r1 w1,
        checkToken (r, w) = (None, (r1, w1)) -> answer (client r1) w1 = inl resp ->
        perform op (r, w)
        = (Some (statusPrefix op ++ Status resp),
           (r1, exchanged (client r1) (requestOf op (accessToken r1)) w1)))
  /\ (usable r (now w) = true -> answer (client r) w = inl resp ->
        perform op (r, w)
        = (Some (statusPrefix op ++ Status resp),
           (r, exchanged (client r) (requestOf op (accessToken r)) w))).
Proof.
  intros Hn.
  assert (Hs : StatusCode resp <> 200) by (unfold is2xx in Hn; lia).
  split; [|split].
  - intros Hc Ha. rewrite refreshAccessToken_eq, requestToken_eq by assumption.
    unfold tokenOutcome. rewrite Ha. apply Z.eqb_neq in Hs. unfold StatusOK.
    rewrite Hs. reflexivity.
  - intros r1 w1 Hc Ha. now apply perform_status_error.
  - intros Hu Ha. apply perform_status_error; try assumption.
    now apply checkToken_usable.
Qed.

Lemma non_2xx_leaves_token_witness :
  let w := worldAt 50 [after 1 (statusResponse 503 "503 Service Unavailable" zeroFields)] in
  perform (OpUploadImage [] "logo.png") (cachedApp, w)
  = (Some "wxwork app request error, 503 Service Unavailable",
     (cachedApp,
      exchanged (client cachedApp) (requestOf (OpUploadImage [] "logo.png") "abc") w)).
Proof.
  intros w.
  refine (proj2 (proj2 (non_2xx_leaves_token (OpUploadImage [] "logo.png") cachedApp w
            (statusResponse 503 "503 Service Unavailable" zeroFields) _)) _ _).
  - unfold is2xx. cbn. lia.
  - vm_compute; reflexivity.
  - vm_compute; reflexivity.
Defined.

(** The same holds when no response comes at all: a refused connection
    or the client's timeout is an error of the exchange, and the
    application stays what the token block had left. *)
Lemma transport_failure_leaves_token (op : Operation) (r r1 : WxWorkApp)
  (w w1 : World) (e : string) :
  checkToken (r, w) = (None, (r1, w1)) ->
  answer (client r1) w1 = inr e ->
  perform op (r, w)
  = (Some ("get response error, " ++ e),
     (r1, exchanged (client r1) (requestOf op (accessToken r1)) w1)).
Proof.
  intros Hc Ha. rewrite perform_dispatch, dispatch_eq, Hc.
  unfold envelopeOf. rewrite Ha. reflexivity.
Qed.

(** ** C8: a usable token is never fetched again *)

Lemma perform_fetches (op : Operation) (r : WxWorkApp) (w : World) :
  tokenFetches (snd (snd (perform op (r, w))))
  = (tokenFetches w
     + if usable r (now w) then 0 else if credentialsOK r then 1 else 0)%nat.
Proof.
  rewrite perform_dispatch, judged_world, dispatch_eq.
  destruct (usable r (now w)) eqn:Hu.
  - rewrite checkToken_usable by assumption. cbn [fst snd].
    rewrite tokenFetches_exchanged, isTokenRequest_requestOf. reflexivity.
  - rewrite checkToken_stale, refreshAccessToken_eq by assumption.
    unfold wrapRefresh.
    destruct (credentialsOK r) eqn:Hc.
    + rewrite requestToken_eq by assumption.
      destruct (tokenOutcome (answer (client r) w)) as [t|e]; cbn [fst snd];
        rewrite ?tokenFetches_exchanged, ?isTokenRequest_requestOf,
          ?isTokenRequest_tokenRequest; lia.
    + destruct (requestToken_bad_credentials r w Hc) as [e ->]. cbn [fst snd]. lia.
Qed.

Lemma sleep_fetches (d : N) (s : WxWorkApp * World) :
  tokenFetches (snd (snd (sleep d s))) = tokenFetches (snd s).
Proof. reflexivity. Qed.

Lemma run_cons_call (op : Operation) (evs : list Event) (s : WxWorkApp * World) :
  snd (run (Call op :: evs) s) = snd (run evs (snd (perform op s))).
Proof.
  cbn [run]. unfold bind, ret. destruct (perform op s) as [err s1]. cbn [snd].
  destruct (run evs s1) as [errs s2]. reflexivity.
Qed.

Lemma run_cons_sleep (d : N) (evs : list Event) (s : WxWorkApp * World) :
  snd (run (Sleep d :: evs) s) = snd (run evs (snd (sleep d s))).
Proof. reflexivity. Qed.



(** ** C9: two errors that do not reach the caller *)

(** What [UploadMedia] returns when the upload is accepted: the error of
    [strconv.ParseInt] on [created_at] is not among its results. *)
Lemma UploadMedia_accepted (fileBody : list Byte.byte) (fileName fileType : string)
  (r r1 : WxWorkApp) (w w1 : World) (resp : Response) (f : Fields) :
  checkToken (r, w) = (None, (r1, w1)) ->
  answer (client r1) w1 = inl resp ->
  StatusCode resp = 200 ->
  RespBody resp = Document f ->
  errcode f = 0 ->
  fst (UploadMedia fileBody fileName fileType (r, w))
  = (media_id f, fst (ParseInt (created_at f)), None).
Proof.
  intros Hc Ha Hs Hb He.
  unfold UploadMedia, uploadFile, bind, self, ret. rewrite Hc. cbn [fst snd].
  unfold NewRequest. rewrite !CTL_app, Encode_noCTL.
  change (stringContainsCTLByte WxWorkAppUploadMediaAPI || (stringContainsCTLByte "?" || false))
    with false.
  cbv beta iota. unfold clientDo, Do. cbn [fst snd]. rewrite Ha, Hs, Hb.
  change (negb (200 =? StatusOK)) with false. cbv beta iota.
  cbn [Decode fill UploadMediaResp_obj UploadMediaErrCode MediaID CreatedAt].
  rewrite He. change (negb (0 =? WxWorkAppStatusOK)) with false. cbv beta iota.
  destruct (ParseInt (created_at f)) as [createdAt perr]. reflexivity.
Qed.

(** C9, the code at two inputs the claim speaks of.  A media upload
    answered with [created_at: abc]: [strconv.ParseInt] fails, and
    [UploadMedia] returns creation time 0 with no error.  A message
    object [json.Marshal] rejects: [sendMessage] sends the request with
    an empty body and returns no error of the serialization. *)
Theorem discarded_errors_at_work :
  snd (ParseInt "abc") = Some (syntaxError "abc")
  /\ fst (UploadMedia [] "clip.mp4" "video"
            (cachedApp, worldAt 50 [after 1 (okResponse (mediaFields "m1" "abc"))]))
     = ("m1", 0, None)
  /\ snd (Marshal GoFunc) = Some "json: unsupported type"
  /\ (let '(res, (_, w)) :=
        sendMessage (Some GoFunc)
          (cachedApp, worldAt 50 [after 1 (okResponse (envelope 0 "ok"))]) in
      snd res = None /\ map ReqBody (sent w) = [Some NoBytes]).
Proof. vm_compute. repeat split; reflexivity. Qed.

(** ** C10: a reset keeps the expiry, and an empty token is refreshed *)



(** ** C3: goroutines and the refresh *)

Section MovingGoroutines.
Import Goroutines.

Lemma lookup_moved (c c' : Config) (i j : nat) (pc pc' y : PC) :
  goroutines c !! i = Some pc ->
  goroutines c' = <[i := pc']> (goroutines c) ->
  goroutines c' !! j = Some y ->
  (j = i /\ y = pc') \/ (j <> i /\ goroutines c !! j = Some y).
Proof.
  intros Hi Hc' Hj. rewrite Hc' in Hj.
  destruct (decide (i = j)) as [<-|Hne].
  - left. rewrite list_lookup_insert_eq in Hj by (eapply lookup_lt_Some; eassumption).
    split; congruence.
  - right. rewrite list_lookup_insert_ne in Hj by assumption. split; congruence.
Qed.

(** Moving a goroutine keeps what holds of the others. *)
Lemma Forall_moved (P Q : PC -> Prop) (c c' : Config) (i : nat) (pc pc' : PC) :
  goroutines c !! i = Some pc ->
  goroutines c' = <[i := pc']> (goroutines c) ->
  Forall P (goroutines c) ->
  (forall j y, j <> i -> goroutines c !! j = Some y -> P y -> Q y) ->
  Q pc' ->
  Forall Q (goroutines c').
Proof.
  intros Hi Hc' HP Hothers Hnew. apply Forall_lookup. intros j y Hj.
  destruct (lookup_moved c c' i j pc pc' y Hi Hc' Hj) as [[-> ->]|[Hne Hj']];
    [assumption|].
  apply (Hothers j y Hne Hj'). eapply Forall_lookup; eassumption.
Qed.

Lemma holder_moved (c c' : Config) (i j : nat) (pc pc' : PC) :
  goroutines c !! i = Some pc ->
  goroutines c' = <[i := pc']> (goroutines c) ->
  holder c' j ->
  (j = i /\ inSection pc' = true) \/ (j <> i /\ holder c j).
Proof.
  intros Hi Hc' [y [Hj Hy]].
  destruct (lookup_moved c c' i j pc pc' y Hi Hc' Hj) as [[-> ->]|[Hne Hj']].
  - left. split; [reflexivity|assumption].
  - right. split; [assumption|]. exists y. split; assumption.
Qed.

Lemma holder_stays (c c' : Config) (i j : nat) (pc pc' : PC) :
  goroutines c !! i = Some pc ->
  goroutines c' = <[i := pc']> (goroutines c) ->
  (inSection pc = true -> inSection pc' = true) ->
  holder c j -> holder c' j.
Proof.
  intros Hi Hc' Hs [y [Hj Hy]]. unfold holder. rewrite Hc'.
  destruct (decide (i = j)) as [<-|Hne].
  - exists pc'. rewrite list_lookup_insert_eq by (eapply lookup_lt_Some; eassumption).
    split; [reflexivity|]. apply Hs. congruence.
  - exists y. rewrite list_lookup_insert_ne by assumption. split; assumption.
Qed.

(** A step inside the section, or outside it, keeps the lock invariant. *)
Lemma lock_kept (c c' : Config) (i : nat) (pc pc' : PC) :
  goroutines c !! i = Some pc ->
  goroutines c' = <[i := pc']> (goroutines c) ->
  inSection pc' = inSection pc ->
  locked c' = locked c ->
  LockInv c -> LockInv c'.
Proof.
  intros Hi Hc' Hs Hl (Hlocked & Halone & Hsome).
  assert (Hback : forall j, holder c' j -> holder c j).
  { intros j Hj. destruct (holder_moved c c' i j pc pc' Hi Hc' Hj) as [[-> Hin]|[_ H]];
      [|assumption].
    exists pc. split; [assumption|congruence]. }
  split; [|split].
  - intros j Hj. rewrite Hl. eauto.
  - intros j k Hj Hk. eauto.
  - rewrite Hl. intros H. destruct (Hsome H) as [j Hj]. exists j.
    eapply holder_stays; [exact Hi | exact Hc' | congruence | exact Hj].
Qed.

(** Taking the free lock. *)
Lemma lock_acquired (c c' : Config) (i : nat) (pc pc' : PC) :
  goroutines c !! i = Some pc ->
  goroutines c' = <[i := pc']> (goroutines c) ->
  inSection pc' = true ->
  locked c = false ->
  locked c' = true ->
  LockInv c -> LockInv c'.
Proof.
  intros Hi Hc' Hin Hfree Hl (Hlocked & Halone & Hsome).
  assert (Honly : forall j, holder c' j -> j = i).
  { intros j Hj. destruct (holder_moved c c' i j pc pc' Hi Hc' Hj) as [[-> _]|[_ H]];
      [reflexivity|].
    apply Hlocked in H. congruence. }
  split; [|split].
  - intros j _. assumption.
  - intros j k Hj Hk. rewrite (Honly j Hj), (Honly k Hk). reflexivity.
  - intros _. exists i. exists pc'. split; [|assumption]. rewrite Hc'.
    apply list_lookup_insert_eq. eapply lookup_lt_Some; eassumption.
Qed.

(** Leaving the section. *)
Lemma lock_released (c c' : Config) (i : nat) (pc pc' : PC) :
  goroutines c !! i = Some pc ->
  goroutines c' = <[i := pc']> (goroutines c) ->
  inSection pc = true ->
  inSection pc' = false ->
  locked c' = false ->
  LockInv c -> LockInv c'.
Proof.
  intros Hi Hc' Hin Hout Hl (Hlocked & Halone & Hsome).
  assert (Hnone : forall j, ~ holder c' j).
  { intros j Hj. destruct (holder_moved c c' i j pc pc' Hi Hc' Hj) as [[_ H]|[Hne H]].
    - congruence.
    - apply Hne. apply (Halone j i H). exists pc. split; assumption. }
  split; [|split].
  - intros j Hj. destruct (Hnone j Hj).
  - intros j k Hj _. destruct (Hnone j Hj).
  - congruence.
Qed.

(** While a goroutine is in the section, the others are outside. *)
Lemma others_outside (c : Config) (i j : nat) (pc y : PC) :
  LockInv c ->
  goroutines c !! i = Some pc -> inSection pc = true ->
  j <> i -> goroutines c !! j = Some y ->
  inSection y = false.
Proof.
  intros (_ & Halone & _) Hi Hin Hne Hj.
  destruct (inSection y) eqn:E; [|reflexivity].
  exfalso. apply Hne. apply (Halone j i).
  - exists y. split; assumption.
  - exists pc. split; assumption.
Qed.

End MovingGoroutines.

Section Clock.
Import Goroutines.

Lemma requestToken_clock (r : WxWorkApp) (w : World) :
  now w <= now (snd (snd (requestToken (r, w)))).
Proof.
  destruct (credentialsOK r) eqn:Hc.
  - rewrite requestToken_eq by assumption. cbn [snd].
    rewrite now_exchanged. pose proof (waited_nonneg (client r) w). lia.
  - destruct (requestToken_bad_credentials r w Hc) as [e ->]. cbn [snd]. lia.
Qed.

(** No step turns the clock back. *)
Lemma step_clock (i : nat) (c c' : Config) :
  step i c = Some c' -> now (world c) <= now (world c').
Proof.
  unfold step. destruct (goroutines c !! i) as [pc|]; [|discriminate].
  destruct pc as [ | | | |resp|resp|err|[e|]| |out]; try discriminate.
  - destruct (fst (tokenMissingOrExpired (receiver c, world c)));
      intros H; inversion H; cbn; lia.
  - destruct (locked c); [discriminate|]. intros H; inversion H; cbn; lia.
  - destruct (fst (tokenMissingOrExpired (receiver c, world c)));
      intros H; inversion H; cbn; lia.
  - pose proof (requestToken_clock (receiver c) (world c)) as Hclock.
    destruct (requestToken (receiver c, world c)) as [[resp|err] [r w]];
      intros H; inversion H; cbn in *; lia.
  - intros H; inversion H; cbn; lia.
  - intros H; inversion H; cbn; lia.
  - intros H; inversion H; cbn; lia.
  - intros H; inversion H; cbn; lia.
  - intros H; inversion H; cbn; lia.
  - intros H; inversion H; cbn; lia.
Qed.

Lemma exec_clock (sched : list Choice) (c c' : Config) :
  exec sched c = Some c' -> now (world c) <= now (world c').
Proof.
  revert c. induction sched as [|[i|d] sched IH]; intros c H; cbn [exec] in H.
  - inversion H. lia.
  - destruct (step i c) as [c1|] eqn:Hs; [|discriminate].
    apply step_clock in Hs. apply IH in H. lia.
  - apply IH in H. cbn in H. lia.
Qed.

End Clock.

Section OneRefresh.
Import Goroutines.

Variables (r0 : WxWorkApp) (w0 : World) (t : WxWorkAppTokenResp).
Hypothesis Hcreds : credentialsOK r0 = true.
Hypothesis Hgrant : tokenOutcome (answer (client r0) w0) = inl t.
Hypothesis Htoken : AccessToken t <> EmptyString.
Hypothesis Hlife : inInt64 (Second * ExpiresIn t).

Lemma identity_credentials (r : WxWorkApp) :
  sameIdentity r r0 -> credentialsOK r = true /\ tokenRequest r = tokenRequest r0.
Proof.
  intros (Hc & Hs & _). unfold credentialsOK, tokenRequest. rewrite Hc, Hs.
  split; [exact Hcreds|reflexivity].
Qed.

(** Before the fetch, the exchange of any goroutine is the grant. *)
Lemma requestToken_grant (r : WxWorkApp) (w : World) :
  sameIdentity r r0 -> pending w = pending w0 ->
  requestToken (r, w) = (inl t, (r, exchanged (client r) (tokenRequest r0) w)).
Proof.
  intros Hid Hp. destruct (identity_credentials r Hid) as [Hc Hreq].
  rewrite requestToken_eq, Hreq by assumption.
  destruct Hid as (_ & _ & Hcl).
  replace (answer (client r) w) with (answer (client r0) w0)
    by (unfold answer; now rewrite Hcl, Hp).
  rewrite Hgrant. reflexivity.
Qed.

Lemma stale_when_empty (r : WxWorkApp) (w : World) :
  accessToken r = EmptyString -> fst (tokenMissingOrExpired (r, w)) = true.
Proof.
  intros H. rewrite tokenMissingOrExpired_eq. cbn [fst]. unfold usable.
  rewrite H. reflexivity.
Qed.

Lemma fresh_when_stored (r : WxWorkApp) (w : World) :
  accessToken r = AccessToken t ->
  now w0 + Second * ExpiresIn t <= expiredAt r ->
  now w <= now w0 + Second * ExpiresIn t ->
  fst (tokenMissingOrExpired (r, w)) = false.
Proof.
  intros Ht He Hn. rewrite tokenMissingOrExpired_eq. cbn [fst].
  apply negb_false_iff, usable_spec. split; [congruence|lia].
Qed.

Lemma Inv_moved (ph ph' : Phase) (c c' : Config) (i : nat) (pc pc' : PC) :
  goroutines c !! i = Some pc ->
  goroutines c' = <[i := pc']> (goroutines c) ->
  now w0 <= now (world c') ->
  sameIdentity (receiver c') r0 ->
  LockInv c' ->
  phaseState ph' r0 w0 t c' ->
  Forall (allowed ph t) (goroutines c) ->
  (forall j y, j <> i -> goroutines c !! j = Some y -> allowed ph t y -> allowed ph' t y) ->
  allowed ph' t pc' ->
  Inv r0 w0 t c'.
Proof.
  intros Hi Hc' Hclock Hid Hlock Hst Hall Hothers Hnew.
  split; try assumption. exists ph'. split; [assumption|].
  eapply Forall_moved; eassumption.
Qed.

(** Outside the section a goroutine stands where every later phase
    allows it. *)
Lemma allowed_outside (ph ph' : Phase) (y : PC) :
  allowed ph t y -> inSection y = false ->
  match ph, ph' with
  | BeforeFetch, Fetched | Fetched, TokenSet | TokenSet, Stored => True
  | _, _ => False
  end ->
  allowed ph' t y.
Proof.
  destruct ph, ph'; try contradiction;
    destruct y as [ | | | |resp|resp|err|[e|]| |out]; cbn; intros; 
    try contradiction; try discriminate; auto.
Qed.

Ltac moved ph ph' c i Hi Hid Hall lock phase others new :=
  eapply (Inv_moved ph ph' c _ i);
  [ exact Hi | reflexivity | lia | exact Hid | lock | phase | exact Hall | others | new ].

Ltac same_side c Hi := eapply (lock_kept c); [exact Hi | reflexivity | reflexivity | reflexivity | assumption].
Ltac kept := intros; assumption.
Ltac outside c Hlock Hi :=
  let j := fresh "j" in let y := fresh "y" in
  intros j y ? ? ?; eapply allowed_outside; [eassumption | | exact I];
  eapply (others_outside c); [exact Hlock | exact Hi | reflexivity | eassumption | eassumption].

(** Every step taken before the token's lifetime is over keeps the
    invariant. *)
Lemma step_keeps_Inv (i : nat) (c c' : Config) :
  Inv r0 w0 t c -> step i c = Some c' ->
  now (world c') <= now w0 + Second * ExpiresIn t ->
  Inv r0 w0 t c'.
Proof.
  intros [Hclock Hid Hlock [ph [Hst Hall]]] Hstep Hhorizon.
  pose proof (step_clock i c c' Hstep) as Hmono.
  unfold step in Hstep.
  destruct (goroutines c !! i) as [pc|] eqn:Hi; [|discriminate].
  assert (Hpc : allowed ph t pc) by (eapply Forall_lookup; eassumption).
  destruct ph, pc as [ | | | |resp|resp|err|[e|]| |out]; cbn [allowed] in Hpc;
    try contradiction; try discriminate.
  - (* BeforeFetch, AtCheck *)
    pose proof Hst as (Hsent & Hpend & Htok).
    rewrite (stale_when_empty _ _ Htok) in Hstep. inversion Hstep; subst c'.
    moved BeforeFetch BeforeFetch c i Hi Hid Hall
      ltac:(same_side c Hi) ltac:(exact Hst) ltac:(kept) ltac:(exact I).
  - (* BeforeFetch, AtLock *)
    destruct (locked c) eqn:Hl; [discriminate|]. inversion Hstep; subst c'.
    moved BeforeFetch BeforeFetch c i Hi Hid Hall
      ltac:(eapply (lock_acquired c); [exact Hi | reflexivity | reflexivity | exact Hl | reflexivity | assumption])
      ltac:(exact Hst) ltac:(kept) ltac:(exact I).
  - (* BeforeFetch, AtRecheck *)
    pose proof Hst as (Hsent & Hpend & Htok).
    rewrite (stale_when_empty _ _ Htok) in Hstep. inversion Hstep; subst c'.
    moved BeforeFetch BeforeFetch c i Hi Hid Hall
      ltac:(same_side c Hi) ltac:(exact Hst) ltac:(kept) ltac:(exact I).
  - (* BeforeFetch, AtRefresh: the one request *)
    destruct Hst as (Hsent & Hpend & Htok).
    rewrite (requestToken_grant _ _ Hid Hpend) in Hstep.
    inversion Hstep; subst c'. clear Hstep.
    assert (Hheld : locked c = true).
    { destruct Hlock as (Hlocked & _). apply (Hlocked i). exists AtRefresh. now split. }
    moved BeforeFetch Fetched c i Hi Hid Hall
      ltac:(same_side c Hi)
      ltac:(cbn; rewrite Hsent; repeat split; assumption)
      ltac:(outside c Hlock Hi) ltac:(reflexivity).
  - (* Fetched, AtCheck *)
    pose proof Hst as (Hsent & Htok & Hheld).
    rewrite (stale_when_empty _ _ Htok) in Hstep. inversion Hstep; subst c'.
    moved Fetched Fetched c i Hi Hid Hall
      ltac:(same_side c Hi) ltac:(exact Hst) ltac:(kept) ltac:(exact I).
  - (* Fetched, AtLock: the lock is held *)
    destruct Hst as (_ & _ & Hheld). rewrite Hheld in Hstep. discriminate.
  - (* Fetched, AtSetToken *)
    subst resp. destruct Hst as (Hsent & Htok & Hheld).
    inversion Hstep; subst c'. clear Hstep.
    moved Fetched TokenSet c i Hi Hid Hall
      ltac:(same_side c Hi)
      ltac:(cbn; repeat split; assumption)
      ltac:(outside c Hlock Hi) ltac:(reflexivity).
  - (* TokenSet, AtCheck *)
    destruct (fst (tokenMissingOrExpired (receiver c, world c)));
      inversion Hstep; subst c';
      moved TokenSet TokenSet c i Hi Hid Hall
        ltac:(same_side c Hi) ltac:(exact Hst) ltac:(kept) ltac:(exact I).
  - (* TokenSet, AtLock: the lock is held *)
    destruct Hst as (_ & _ & Hheld). rewrite Hheld in Hstep. discriminate.
  - (* TokenSet, AtSetExpiry *)
    subst resp. destruct Hst as (Hsent & Htok & Hheld).
    inversion Hstep; subst c'. clear Hstep.
    moved TokenSet Stored c i Hi Hid Hall
      ltac:(same_side c Hi)
      ltac:(cbn; repeat split; try assumption;
            unfold Add, mulDuration; rewrite wrap64_small by assumption; lia)
      ltac:(outside c Hlock Hi) ltac:(reflexivity).
  - (* TokenSet, AtQuery *)
    pose proof Hst as (Hsent & Htok & Hheld).
    inversion Hstep; subst c'.
    moved TokenSet TokenSet c i Hi Hid Hall
      ltac:(same_side c Hi) ltac:(exact Hst) ltac:(kept)
      ltac:(cbn; now rewrite Htok).
  - (* Stored, AtCheck *)
    destruct (fst (tokenMissingOrExpired (receiver c, world c)));
      inversion Hstep; subst c';
      moved Stored Stored c i Hi Hid Hall
        ltac:(same_side c Hi) ltac:(exact Hst) ltac:(kept) ltac:(exact I).
  - (* Stored, AtLock *)
    destruct (locked c) eqn:Hl; [discriminate|]. inversion Hstep; subst c'.
    moved Stored Stored c i Hi Hid Hall
      ltac:(eapply (lock_acquired c); [exact Hi | reflexivity | reflexivity | exact Hl | reflexivity | assumption])
      ltac:(exact Hst) ltac:(kept) ltac:(exact I).
  - (* Stored, AtRecheck: the token is found *)
    pose proof Hst as (Hsent & Htok & Hexp).
    rewrite (fresh_when_stored _ _ Htok Hexp) in Hstep by lia.
    inversion Hstep; subst c'.
    moved Stored Stored c i Hi Hid Hall
      ltac:(same_side c Hi) ltac:(exact Hst) ltac:(kept) ltac:(reflexivity).
  - (* Stored, AtUnlock *)
    subst err. inversion Hstep; subst c'.
    moved Stored Stored c i Hi Hid Hall
      ltac:(eapply (lock_released c); [exact Hi | reflexivity | reflexivity | reflexivity | reflexivity | assumption])
      ltac:(exact Hst) ltac:(kept) ltac:(reflexivity).
  - (* Stored, AtErrCheck *)
    inversion Hstep; subst c'.
    moved Stored Stored c i Hi Hid Hall
      ltac:(same_side c Hi) ltac:(exact Hst) ltac:(kept) ltac:(exact I).
  - (* Stored, AtQuery *)
    pose proof Hst as (Hsent & Htok & Hexp).
    inversion Hstep; subst c'.
    moved Stored Stored c i Hi Hid Hall
      ltac:(same_side c Hi) ltac:(exact Hst) ltac:(kept)
      ltac:(cbn; now rewrite Htok).
Qed.


Lemma tick_keeps_Inv (d : N) (c : Config) : Inv r0 w0 t c -> Inv r0 w0 t (tick d c).
Proof.
  intros [Hclock Hid Hlock [ph [Hst Hall]]]. split.
  - cbn. lia.
  - exact Hid.
  - exact Hlock.
  - exists ph. split; [|exact Hall]. destruct ph; exact Hst.
Qed.

Lemma start_Inv (n : nat) :
  accessToken r0 = EmptyString -> Inv r0 w0 t (start n r0 w0).
Proof.
  intros Hempty. split.
  - cbn. lia.
  - repeat split.
  - split; [|split].
    + intros i [pc [Hi Hin]]. cbn in Hi. apply lookup_replicate in Hi.
      destruct Hi as [-> _]. discriminate.
    + intros i j [pc [Hi Hin]]. cbn in Hi. apply lookup_replicate in Hi.
      destruct Hi as [-> _]. discriminate.
    + discriminate.
  - exists BeforeFetch. split; [repeat split; assumption|].
    cbn. apply Forall_replicate. exact I.
Qed.

(** Every schedule that ends before the token's lifetime is over keeps
    the invariant. *)
Lemma exec_keeps_Inv (sched : list Choice) (c c' : Config) :
  Inv r0 w0 t c -> exec sched c = Some c' ->
  now (world c') <= now w0 + Second * ExpiresIn t ->
  Inv r0 w0 t c'.
Proof.
  revert c. induction sched as [|[i|d] sched IH]; intros c HI He Hh; cbn [exec] in He.
  - inversion He; subst. exact HI.
  - destruct (step i c) as [c1|] eqn:Hs; [|discriminate].
    apply (IH c1); try assumption.
    apply (step_keeps_Inv i c c1 HI Hs).
    pose proof (exec_clock sched c1 c' He). lia.
  - apply (IH (tick d c)); try assumption. now apply tick_keeps_Inv.
Qed.

(** What the invariant says of a configuration. *)
Lemma Inv_outcome (c : Config) :
  Inv r0 w0 t c ->
  (sent (world c) = sent w0
   \/ sent (world c) = (sent w0 ++ [tokenRequest r0])%list)
  /\ (forall i out, goroutines c !! i = Some (Done out) ->
        out = inl (AccessToken t)
        /\ sent (world c) = (sent w0 ++ [tokenRequest r0])%list).
Proof.
  intros [_ _ _ [ph [Hst Hall]]]. split.
  - destruct ph; cbn in Hst; tauto.
  - intros i out Hi.
    assert (Hpc : allowed ph t (Done out)) by (eapply Forall_lookup; eassumption).
    destruct ph; cbn in Hpc, Hst; try contradiction; tauto.
Qed.

End OneRefresh.

Section Progress.
Import Goroutines.

Lemma sum_list_insert (f : PC -> nat) (l : list PC) (i : nat) (x y : PC) :
  l !! i = Some x ->
  (sum_list (map f (<[i := y]> l)) + f x = sum_list (map f l) + f y)%nat.
Proof.
  revert i. induction l as [|a l IH]; intros [|i] Hi; try discriminate.
  - inversion Hi; subst. cbn. lia.
  - cbn in Hi. specialize (IH i Hi).
    change (<[S i := y]> (a :: l)) with (a :: <[i := y]> l).
    cbn [map]. change (sum_list (f a :: map f (<[i := y]> l)))
      with (f a + sum_list (map f (<[i := y]> l)))%nat.
    change (sum_list (f a :: map f l)) with (f a + sum_list (map f l))%nat. lia.
Qed.

(** What a step does to the goroutines: one of them moves on, by a
    position with fewer steps left. *)
Lemma step_moves (i : nat) (c c' : Config) :
  step i c = Some c' ->
  exists pc pc',
    goroutines c !! i = Some pc
    /\ goroutines c' = <[i := pc']> (goroutines c)
    /\ (remaining pc' < remaining pc)%nat
    /\ (inSection pc = false /\ inSection pc' = true ->
        locked c = false /\ locked c' = true)
    /\ (inSection pc = true /\ inSection pc' = false -> locked c' = false)
    /\ (inSection pc' = inSection pc -> locked c' = locked c).
Proof.
  unfold step. destruct (goroutines c !! i) as [pc|] eqn:Hi; [|discriminate].
  intros Hstep. exists pc.
  destruct pc as [ | | | |resp|resp|err|[e|]| |out]; try discriminate;
    repeat match type of Hstep with
           | context [if ?b then _ else _] => destruct b eqn:?
           | context [let '(_, _) := ?p in _] => destruct p as [[?|?] [? ?]]
           end;
    try discriminate; inversion Hstep; subst c'; eexists;
    (split; [reflexivity|]); (split; [reflexivity|]); (split; [cbn; lia|]);
    (split; [|split]); cbn;
    first [ intros [? ?]; first [discriminate | split; [assumption|reflexivity] | reflexivity]
          | intros ?; first [discriminate | reflexivity] ].
Qed.

Lemma step_weight (i : nat) (c c' : Config) :
  step i c = Some c' -> (weight c' < weight c)%nat.
Proof.
  intros Hs. destruct (step_moves i c c' Hs) as (pc & pc' & Hi & Hc' & Hlt & _).
  unfold weight. rewrite Hc'.
  pose proof (sum_list_insert remaining (goroutines c) i pc pc' Hi). lia.
Qed.

(** The lock invariant holds along every step, whatever the answers of
    the token endpoint. *)
Lemma step_keeps_LockInv (i : nat) (c c' : Config) :
  LockInv c -> step i c = Some c' -> LockInv c'.
Proof.
  intros HL Hs.
  destruct (step_moves i c c' Hs) as (pc & pc' & Hi & Hc' & _ & Hin & Hout & Hsame).
  destruct (inSection pc) eqn:Ep, (inSection pc') eqn:Ep'.
  - eapply (lock_kept c c' i pc pc'); try assumption; [congruence|now apply Hsame].
  - eapply (lock_released c c' i pc pc'); try assumption. now apply Hout.
  - destruct Hin as [Hl Hl']; [split; reflexivity|].
    eapply (lock_acquired c c' i pc pc'); assumption.
  - eapply (lock_kept c c' i pc pc'); try assumption; [congruence|now apply Hsame].
Qed.

(** No deadlock: while a goroutine has not returned, some goroutine can
    take a step. *)
Lemma progress (c : Config) (i : nat) (pc : PC) :
  LockInv c -> goroutines c !! i = Some pc -> returned pc = false ->
  exists j c', step j c = Some c'.
Proof.
  intros (_ & _ & Hsome) Hi Hr.
  assert (Hfree : forall k y, goroutines c !! k = Some y -> returned y = false ->
                              y <> AtLock -> exists c', step k c = Some c').
  { intros k y Hk Hy Hne. unfold step. rewrite Hk.
    destruct y as [ | | | |resp|resp|err|[e|]| |out]; try discriminate;
      try congruence; try (eexists; reflexivity).
    - destruct (fst (tokenMissingOrExpired (receiver c, world c))); eexists; reflexivity.
    - destruct (fst (tokenMissingOrExpired (receiver c, world c))); eexists; reflexivity.
    - destruct (requestToken (receiver c, world c)) as [[resp|err] [r w]];
        eexists; reflexivity. }
  assert (Hcase : pc = AtLock \/ pc <> AtLock)
    by (destruct pc; first [left; reflexivity | right; discriminate]).
  destruct Hcase as [->|Hne].
  - destruct (locked c) eqn:Hl.
    + destruct (Hsome eq_refl) as [j [y [Hj Hy]]]. exists j.
      apply (Hfree j y Hj); destruct y; try discriminate; reflexivity.
    + exists i. unfold step. rewrite Hi, Hl. eexists; reflexivity.
  - exists i. now apply (Hfree i pc).
Qed.

Lemma not_all_returned (c : Config) :
  allReturned c = false ->
  exists i pc, goroutines c !! i = Some pc /\ returned pc = false.
Proof.
  unfold allReturned. generalize (goroutines c) as l.
  induction l as [|a l IH]; [discriminate|]. cbn [forallb].
  destruct (returned a) eqn:Ha; cbn [andb].
  - intros H. destruct (IH H) as (i & pc & Hi & Hpc). exists (S i), pc. split; assumption.
  - intros _. exists 0%nat, a. split; [reflexivity|assumption].
Qed.

(** Every caller can return: from a configuration that satisfies the
    lock invariant, some schedule of steps lets every goroutine return,
    and no schedule is longer than the steps the goroutines have left. *)
Lemma every_caller_can_return (c : Config) :
  LockInv c -> exists sched c', exec sched c = Some c' /\ allReturned c' = true.
Proof.
  remember (weight c) as m eqn:Hm. revert c Hm.
  induction m as [m IH] using lt_wf_ind. intros c Hm HL.
  destruct (allReturned c) eqn:Hall.
  - exists [], c. split; [reflexivity|assumption].
  - destruct (not_all_returned c Hall) as (i & pc & Hi & Hpc).
    destruct (progress c i pc HL Hi Hpc) as (j & c1 & Hs).
    pose proof (step_weight j c c1 Hs) as Hlt.
    destruct (IH (weight c1) ltac:(lia) c1 eq_refl (step_keeps_LockInv j c c1 HL Hs))
      as (sched & c' & He & Hr).
    exists (Run j :: sched), c'. split; [|assumption].
    cbn [exec]. rewrite Hs. assumption.
Qed.

End Progress.

Section ClaimC3.
Import Goroutines.

(** The first check and the read of the token for the query are steps
    outside the section: they are taken whether the lock is held or not. *)
Lemma reads_outside_section (c : Config) (i : nat) (pc : PC) :
  goroutines c !! i = Some pc ->
  touchesToken pc = true -> inSection pc = false ->
  (pc = AtCheck \/ pc = AtQuery) /\ exists c', step i c = Some c'.
Proof.
  intros Hi Ht Hs. unfold step. rewrite Hi.
  destruct pc as [ | | | |resp|resp|err|[e|]| |out]; try discriminate.
  - split; [now left|].
    destruct (fst (tokenMissingOrExpired (receiver c, world c))); eexists; reflexivity.
  - split; [now right|]. eexists; reflexivity.
Qed.




End ClaimC3.

Section WitnessC3.
Import Goroutines.


End WitnessC3.

(** * Further properties of the code *)

(** ** The message helpers *)

Lemma perform_sendMessage (obj : option GoValue) (s : WxWorkApp * World) :
  perform (OpSendMessage obj) s = (snd (fst (sendMessage obj s)), snd (sendMessage obj s)).
Proof.
  unfold perform, bind, ret. destruct (sendMessage obj s) as [[v e] s']. reflexivity.
Qed.

(** X1: each helper for users (text, markdown, image, voice, video,
    file, text card) is [sendMessage] on an object [json.Marshal]
    accepts, so the request body is the JSON text of the object and the
    serialization error [fireRequest] discards cannot arise through
    them.  The object names the recipients, each list joined by a bar,
    the agent id of the application and the message type, and holds the
    content under the key that is the message type. *)
Theorem user_helpers_send_marshalable_objects (m : Message)
  (userIDList partyIDList tagIDList : list string)
  (options : option WxWorkAppMessageSendOptions) (r : WxWorkApp) (w : World) :
  exists kvs,
    sendTo m userIDList partyIDList tagIDList options (r, w)
    = sendMessage (Some (GoMap kvs)) (r, w)
    /\ Marshal (GoMap kvs) = (JSONText (GoMap kvs), None)
    /\ bodyOf (OpSendMessage (Some (GoMap kvs))) = Some (JSONText (GoMap kvs))
    /\ field "touser" kvs = Some (GoString (Join userIDList "|"))
    /\ field "toparty" kvs = Some (GoString (Join partyIDList "|"))
    /\ field "totag" kvs = Some (GoString (Join tagIDList "|"))
    /\ field "agentid" kvs = Some (GoString (agentID r))
    /\ field "msgtype" kvs = Some (GoString (msgtypeOf m))
    /\ (exists content, field (msgtypeOf m) kvs = Some (GoMap content)).
Proof.
  destruct m; eexists; (split; [reflexivity|]);
    destruct options as [[[] [] [] i]|]; cbn [sendOptions Safe EnableIDTrans
      EnableDuplicateCheck DuplicateCheckInterval];
    try destruct (0 <? i); repeat split; eexists; reflexivity.
Qed.

(** X2: the options of the helpers for users.  Without options the
    object has none of the four option keys.  With options, [safe],
    [enable_id_trans] and [enable_duplicate_check] are 1 when their flag
    is set and absent otherwise, and [duplicate_check_interval] is the
    interval whenever it is positive, whether or not the duplicate check
    is enabled, and absent otherwise. *)
Theorem user_helpers_options (m : Message)
  (userIDList partyIDList tagIDList : list string)
  (options : option WxWorkAppMessageSendOptions) (r : WxWorkApp) (w : World) :
  exists kvs,
    sendTo m userIDList partyIDList tagIDList options (r, w)
    = sendMessage (Some (GoMap kvs)) (r, w)
    /\ field "safe" kvs
       = match options with
         | Some o => if Safe o then Some (GoInt 1) else None
         | None => None
         end
    /\ field "enable_id_trans" kvs
       = match options with
         | Some o => if EnableIDTrans o then Some (GoInt 1) else None
         | None => None
         end
    /\ field "enable_duplicate_check" kvs
       = match options with
         | Some o => if EnableDuplicateCheck o then Some (GoInt 1) else None
         | None => None
         end
    /\ field "duplicate_check_interval" kvs
       = match options with
         | Some o => if 0 <? DuplicateCheckInterval o
                     then Some (GoInt (DuplicateCheckInterval o)) else None
         | None => None
         end.
Proof.
  destruct m; eexists; (split; [reflexivity|]);
    destruct options as [[[] [] [] i]|]; cbn [sendOptions Safe EnableIDTrans
      EnableDuplicateCheck DuplicateCheckInterval];
    try destruct (0 <? i); repeat split.
Qed.

(** X3: each helper for a group is [sendGroupMessage] on an object
    [json.Marshal] accepts, which names the chat and the message type
    and holds the content under the key that is the message type.  Of
    the options it reads [Safe] alone: [enable_id_trans],
    [enable_duplicate_check] and [duplicate_check_interval] never enter
    the object, whatever the options say, and neither does an agent id. *)
Theorem group_helpers_send_marshalable_objects (m : Message) (chatID : string)
  (options : option WxWorkAppMessageSendOptions) (s : WxWorkApp * World) :
  exists kvs,
    sendToGroup m chatID options s = perform (OpSendGroupMessage (Some (GoMap kvs))) s
    /\ Marshal (GoMap kvs) = (JSONText (GoMap kvs), None)
    /\ field "chatid" kvs = Some (GoString chatID)
    /\ field "msgtype" kvs = Some (GoString (msgtypeOf m))
    /\ (exists content, field (msgtypeOf m) kvs = Some (GoMap content))
    /\ field "safe" kvs
       = match options with
         | Some o => if Safe o then Some (GoInt 1) else None
         | None => None
         end
    /\ field "enable_id_trans" kvs = None
    /\ field "enable_duplicate_check" kvs = None
    /\ field "duplicate_check_interval" kvs = None
    /\ field "agentid" kvs = None.
Proof.
  destruct m; eexists; (split; [reflexivity|]);
    destruct options as [[[] ? ? ?]|]; cbn [groupOptions Safe];
    repeat split; eexists; reflexivity.
Qed.

(** X4: the text card helpers disagree on the key of the button text:
    [SendTextCardMessage] puts it under [btntxt], and
    [SendGroupTextCardMessage] under [btntext]; neither object has the
    other key. *)
Theorem text_card_button_keys (userIDList partyIDList tagIDList : list string)
  (chatID title description link btnText : string)
  (options : option WxWorkAppMessageSendOptions) (s : WxWorkApp * World) :
  (exists kvs card,
     SendTextCardMessage userIDList partyIDList tagIDList title description link
       btnText options s
     = sendMessage (Some (GoMap kvs)) s
     /\ field "textcard" kvs = Some (GoMap card)
     /\ field "btntxt" card = Some (GoString btnText)
     /\ field "btntext" card = None)
  /\ (exists kvs card,
        SendGroupTextCardMessage chatID title description link btnText options s
        = sendGroupMessage (Some (GoMap kvs)) s
        /\ field "textcard" kvs = Some (GoMap card)
        /\ field "btntext" card = Some (GoString btnText)
        /\ field "btntxt" card = None).
Proof.
  destruct s as [r w]. split; eexists; eexists; (split; [reflexivity|]);
    repeat split.
Qed.

(** ** The dispatchers and the operations, outcome by outcome *)

Lemma fireRequest_eq (T : Type) (obj : RespObject T) (reqMethod reqURL : string)
  (reqParams : list (string * string)) (reqBodyObject : option GoValue)
  (respObject : T) (r : WxWorkApp) (w : World) :
  stringContainsCTLByte reqURL = false ->
  fireRequest reqMethod reqURL reqParams reqBodyObject respObject (r, w)
  = match checkToken (r, w) with
    | (Some e, s1) => ((respObject, Some e), s1)
    | (None, (r1, w1)) =>
        (received "wxwork request error, " respObject (answer (client r1) w1),
         (r1, exchanged (client r1)
                {| Method := reqMethod;
                   URL := reqURL ++ "?" ++ Encode (queryOf (accessToken r1) reqParams);
                   Header := [("Content-Type", "application/json")];
                   ReqBody := match reqBodyObject with
                              | Some v => let '(reqBody, _) := Marshal v in Some reqBody
                              | None => None
                              end |} w1))
    end.
Proof.
  intros Hu. unfold fireRequest, bind, self, ret.
  destruct (checkToken (r, w)) as [[e|] [r1 w1]]; [reflexivity|]. cbn [fst snd].
  unfold NewRequest. rewrite !CTL_app, Encode_noCTL, Hu.
  change (stringContainsCTLByte "?") with false. cbn [orb].
  unfold clientDo, exchanged, Do, received. cbn [fst snd].
  destruct (answer (client r1) w1) as [resp|getErr]; [|reflexivity].
  destruct (negb (StatusCode resp =? StatusOK)); [reflexivity|].
  destruct (RespBody resp) as [f|msg partial]; reflexivity.
Qed.

Lemma uploadFile_eq (T : Type) (obj : RespObject T) (reqMethod reqURL : string)
  (reqParams : list (string * string)) (fileBody : list Byte.byte) (fileName : string)
  (respObject : T) (r : WxWorkApp) (w : World) :
  stringContainsCTLByte reqURL = false ->
  uploadFile reqMethod reqURL reqParams fileBody fileName respObject (r, w)
  = match checkToken (r, w) with
    | (Some e, s1) => ((respObject, Some e), s1)
    | (None, (r1, w1)) =>
        (received "wxwork app request error, " respObject (answer (client r1) w1),
         (r1, exchanged (client r1)
                {| Method := reqMethod;
                   URL := reqURL ++ "?" ++ Encode (queryOf (accessToken r1) reqParams);
                   Header := [("Content-Type", "multipart/form-data")];
                   ReqBody := Some (FormFile "media" fileName fileBody) |} w1))
    end.
Proof.
  intros Hu. unfold uploadFile, bind, self, ret.
  destruct (checkToken (r, w)) as [[e|] [r1 w1]]; [reflexivity|]. cbn [fst snd].
  unfold NewRequest. rewrite !CTL_app, Encode_noCTL, Hu.
  change (stringContainsCTLByte "?") with false. cbn [orb].
  unfold clientDo, exchanged, Do, received. cbn [fst snd].
  destruct (answer (client r1) w1) as [resp|getErr]; [|reflexivity].
  destruct (negb (StatusCode resp =? StatusOK)); [reflexivity|].
  destruct (RespBody resp) as [f|msg partial]; reflexivity.
Qed.

(** A dispatcher returns no error only for status 200 and a body that
    decodes; the struct is then the document's. *)
Lemma received_ok_inv (T : Type) (obj : RespObject T) (prefix : string)
  (respObject v : T) (res : Response + string) :
  received prefix respObject res = (v, None) ->
  exists resp f, res = inl resp /\ StatusCode resp = StatusOK
                 /\ RespBody resp = Document f /\ v = fill f.
Proof.
  unfold received. destruct res as [resp|e]; [|discriminate].
  destruct (StatusCode resp =? StatusOK) eqn:Hs; cbn [negb]; [|discriminate].
  destruct (RespBody resp) as [f|msg partial] eqn:Hb; [|discriminate].
  intros H. inversion H. exists resp, f. apply Z.eqb_eq in Hs. repeat split; assumption.
Qed.

Lemma checkToken_error_inv (s s' : WxWorkApp * World) (e : string) :
  checkToken s = (Some e, s') ->
  exists e', e = "refresh access token error, " ++ e'
             /\ refreshAccessToken s = (Some e', s').
Proof.
  destruct s as [r w]. destruct (usable r (now w)) eqn:Hu.
  - rewrite checkToken_usable by assumption. discriminate.
  - rewrite checkToken_stale by assumption. unfold wrapRefresh.
    destruct (refreshAccessToken (r, w)) as [[e'|] s1]; cbn [fst snd];
      intros H; inversion H. exists e'. split; reflexivity.
Qed.

Lemma perform_outcome (op : Operation) (r : WxWorkApp) (w : World) :
  perform op (r, w)
  = match checkToken (r, w) with
    | (Some e, s1) => (Some e, s1)
    | (None, (r1, w1)) =>
        judged (apiName op)
          (envelopeOf (statusPrefix op) (answer (client r1) w1),
           (r1, exchanged (client r1) (requestOf op (accessToken r1)) w1))
    end.
Proof.
  rewrite perform_dispatch, dispatch_eq.
  destruct (checkToken (r, w)) as [[e|] [r1 w1]]; reflexivity.
Qed.

(** X5: once the token block has passed, an operation returns no error
    exactly when the answer to its request has status 200, a body that
    decodes and code 0; it then leaves the application as the token
    block left it.  When the token block fails, the operation returns
    that error and sends no request of its own. *)
Theorem operation_succeeds_iff_accepted (op : Operation) (r : WxWorkApp) (w : World) :
  (forall r1 w1, checkToken (r, w) = (None, (r1, w1)) ->
     (fst (perform op (r, w)) = None
      <-> exists f, accepted (answer (client r1) w1) f)
     /\ (fst (perform op (r, w)) = None ->
         snd (perform op (r, w))
         = (r1, exchanged (client r1) (requestOf op (accessToken r1)) w1)))
  /\ (forall e s1, checkToken (r, w) = (Some e, s1) -> perform op (r, w) = (Some e, s1)).
Proof.
  split.
  - intros r1 w1 Hc. rewrite perform_outcome, Hc. unfold envelopeOf, accepted, judged.
    destruct (answer (client r1) w1) as [resp|getErr].
    + destruct (StatusCode resp =? StatusOK) eqn:Hs; cbn [negb].
      * destruct (RespBody resp) as [f|msg partial] eqn:Hb.
        -- destruct (errcode f =? WxWorkAppStatusOK) eqn:He; cbn [fst snd].
           ++ split; [|reflexivity]. split; [|reflexivity]. intros _.
              exists f, resp. apply Z.eqb_eq in Hs, He. repeat split; assumption.
           ++ split; [|discriminate]. split; [discriminate|].
              intros (f' & resp' & Hr & _ & Hb' & He').
              inversion Hr; subst resp'. rewrite Hb in Hb'. inversion Hb'; subst f'.
              apply Z.eqb_neq in He. contradiction.
        -- cbn [fst snd]. split; [|discriminate]. split; [discriminate|].
           intros (f' & resp' & Hr & _ & Hb' & _).
           inversion Hr; subst resp'. congruence.
      * cbn [fst snd]. split; [|discriminate]. split; [discriminate|].
        intros (f' & resp' & Hr & Hs' & _). inversion Hr; subst resp'.
        apply Z.eqb_neq in Hs. contradiction.
    + cbn [fst snd]. split; [|discriminate]. split; [discriminate|].
      intros (f' & resp' & Hr & _). discriminate.
  - intros e s1 Hc. rewrite perform_outcome, Hc. reflexivity.
Qed.

Lemma operation_succeeds_iff_accepted_witness :
  fst (perform (OpGetGroupChat "chat1")
         (cachedApp, worldAt 50 [after 1 (okResponse (envelope 0 "ok"))])) = None.
Proof.
  apply (proj1 (proj1 (operation_succeeds_iff_accepted (OpGetGroupChat "chat1") cachedApp
           (worldAt 50 [after 1 (okResponse (envelope 0 "ok"))]))
           cachedApp (worldAt 50 [after 1 (okResponse (envelope 0 "ok"))]) eq_refl)).
  exists (envelope 0 "ok"), (okResponse (envelope 0 "ok")). repeat split.
Defined.

(** X6: the errors of the seven operations, stage by stage.  An error
    an operation returns is the wrapped error of the refresh, or, the
    token block passed, one of four: the transport error of its
    exchange, the status line of an answer whose status is not 200, the
    decoding error of a body with status 200, or the code and message of
    a decoded envelope whose code is not 0.  The request of an
    operation is always built: [create request error] never comes from
    it. *)
Theorem operation_errors_name_their_stage (op : Operation) (s s' : WxWorkApp * World)
  (e : string) :
  perform op s = (Some e, s') ->
  (exists e', e = "refresh access token error, " ++ e'
              /\ refreshAccessToken s = (Some e', s'))
  \/ (exists r1 w1,
        checkToken s = (None, (r1, w1))
        /\ ((exists e', answer (client r1) w1 = inr e'
                        /\ e = "get response error, " ++ e')
            \/ (exists resp, answer (client r1) w1 = inl resp
                             /\ StatusCode resp <> 200
                             /\ e = statusPrefix op ++ Status resp)
            \/ (exists resp msg partial,
                  answer (client r1) w1 = inl resp /\ StatusCode resp = 200
                  /\ RespBody resp = Malformed msg partial
                  /\ e = "parse response error, " ++ msg)
            \/ (exists resp f,
                  answer (client r1) w1 = inl resp /\ StatusCode resp = 200
                  /\ RespBody resp = Document f /\ errcode f <> 0
                  /\ e = apiError (apiName op) (errcode f) (errmsg f)))).
Proof.
  destruct s as [r w]. rewrite perform_outcome.
  destruct (checkToken (r, w)) as [[e0|] [r1 w1]] eqn:Hc.
  - intros H. inversion H; subst. left. now apply checkToken_error_inv.
  - intros H. right. exists r1, w1. split; [reflexivity|].
    unfold envelopeOf, judged in H.
    destruct (answer (client r1) w1) as [resp|getErr].
    + destruct (StatusCode resp =? StatusOK) eqn:Hs; cbn [negb] in H.
      * apply Z.eqb_eq in Hs.
        destruct (RespBody resp) as [f|msg partial] eqn:Hb.
        -- destruct (errcode f =? WxWorkAppStatusOK) eqn:He; [discriminate|].
           apply Z.eqb_neq in He. inversion H. right. right. right.
           exists resp, f. repeat split; assumption.
        -- inversion H. right. right. left. exists resp, msg, partial.
           repeat split; assumption.
      * apply Z.eqb_neq in Hs. inversion H. right. left. exists resp.
        repeat split; assumption.
    + inversion H. left. exists getErr. split; reflexivity.
Qed.

Lemma operation_errors_name_their_stage_witness :
  exists resp,
    StatusCode resp <> 200
    /\ "wxwork app request error, 503 Service Unavailable"
       = statusPrefix (OpUploadImage [] "logo.png") ++ Status resp.
Proof.
  destruct (operation_errors_name_their_stage (OpUploadImage [] "logo.png")
              (cachedApp,
               worldAt 50 [after 1 (statusResponse 503 "503 Service Unavailable" zeroFields)])
              (cachedApp,
               exchanged (client cachedApp) (requestOf (OpUploadImage [] "logo.png") "abc")
                 (worldAt 50 [after 1 (statusResponse 503 "503 Service Unavailable" zeroFields)]))
              "wxwork app request error, 503 Service Unavailable" eq_refl)
    as [(e' & He & _)|(r1 & w1 & Hc & [(e' & Ha & _)|[(resp & Ha & Hs & He)|[H|H]]])].
  - discriminate He.
  - inversion Hc; subst. discriminate Ha.
  - exists resp. split; assumption.
  - destruct H as (resp & msg & partial & Ha & Hs & _).
    inversion Hc; subst. inversion Ha; subst. discriminate Hs.
  - destruct H as (resp & f & Ha & Hs & _).
    inversion Hc; subst. inversion Ha; subst. discriminate Hs.
Defined.

(** ** What the operations return *)

(** X7: the values next to the error.  [CreateGroupChat],
    [GetGroupChat], [UploadImage] and [UploadMedia] return zero values
    whenever they return an error, also when the rejected envelope
    carried the member; when they return no error, the values are the
    members of the accepted document: its [chatid], its [chat_info], its
    [url], its [media_id] with what [strconv.ParseInt] makes of its
    [created_at]. *)
Theorem results_are_zero_on_error (r : WxWorkApp) (w : World) :
  (forall name ownerID userIDList options,
     let '(chat, err, _) := CreateGroupChat name ownerID userIDList options (r, w) in
     (err <> None -> chat = EmptyString)
     /\ (err = None -> exists r1 w1 f,
           checkToken (r, w) = (None, (r1, w1))
           /\ accepted (answer (client r1) w1) f /\ chat = chatid f))
  /\ (forall chatID,
        let '(group, err, _) := GetGroupChat chatID (r, w) in
        (err <> None -> group = zeroGroup)
        /\ (err = None -> exists r1 w1 f,
              checkToken (r, w) = (None, (r1, w1))
              /\ accepted (answer (client r1) w1) f /\ group = chat_info f))
  /\ (forall fileBody fileName,
        let '(imageURL, err, _) := UploadImage fileBody fileName (r, w) in
        (err <> None -> imageURL = EmptyString)
        /\ (err = None -> exists r1 w1 f,
              checkToken (r, w) = (None, (r1, w1))
              /\ accepted (answer (client r1) w1) f /\ imageURL = url f))
  /\ (forall fileBody fileName fileType,
        let '(mediaID, createdAt, err, _) := UploadMedia fileBody fileName fileType (r, w) in
        (err <> None -> mediaID = EmptyString /\ createdAt = 0)
        /\ (err = None -> exists r1 w1 f,
              checkToken (r, w) = (None, (r1, w1))
              /\ accepted (answer (client r1) w1) f
              /\ mediaID = media_id f /\ createdAt = fst (ParseInt (created_at f)))).
Proof.
  split; [|split; [|split]].
  - intros name ownerID userIDList options.
    unfold CreateGroupChat, bind, ret. rewrite fireRequest_eq by reflexivity.
    destruct (checkToken (r, w)) as [[e|] [r1 w1]]; [split; [reflexivity|discriminate]|].
    destruct (received "wxwork request error, " zeroValue (answer (client r1) w1))
      as [v [e|]] eqn:Hr; [split; [reflexivity|discriminate]|].
    apply received_ok_inv in Hr. destruct Hr as (resp & f & Ha & Hs & Hb & ->).
    cbn [fill CreateGroupResp_obj CreateGroupErrCode CreateGroupErrMessage ChatID].
    destruct (errcode f =? WxWorkAppStatusOK) eqn:He; cbn [negb].
    + split; [congruence|]. intros _. exists r1, w1, f. apply Z.eqb_eq in He.
      repeat split. exists resp. repeat split; assumption.
    + unfold resetIfExpired, modify, ret.
      destruct (errcode f =? WxWorkCodeAccessTokenExpired);
        (split; [reflexivity|discriminate]).
  - intros chatID.
    unfold GetGroupChat, bind, ret. rewrite fireRequest_eq by reflexivity.
    destruct (checkToken (r, w)) as [[e|] [r1 w1]]; [split; [reflexivity|discriminate]|].
    destruct (received "wxwork request error, " zeroValue (answer (client r1) w1))
      as [v [e|]] eqn:Hr; [split; [reflexivity|discriminate]|].
    apply received_ok_inv in Hr. destruct Hr as (resp & f & Ha & Hs & Hb & ->).
    cbn [fill GetGroupResp_obj GetGroupErrCode GetGroupErrMessage ChatInfo].
    destruct (errcode f =? WxWorkAppStatusOK) eqn:He; cbn [negb].
    + split; [congruence|]. intros _. exists r1, w1, f. apply Z.eqb_eq in He.
      repeat split. exists resp. repeat split; assumption.
    + unfold resetIfExpired, modify, ret.
      destruct (errcode f =? WxWorkCodeAccessTokenExpired);
        (split; [reflexivity|discriminate]).
  - intros fileBody fileName.
    unfold UploadImage, bind, ret. rewrite uploadFile_eq by reflexivity.
    destruct (checkToken (r, w)) as [[e|] [r1 w1]]; [split; [reflexivity|discriminate]|].
    destruct (received "wxwork app request error, " zeroValue (answer (client r1) w1))
      as [v [e|]] eqn:Hr; [split; [reflexivity|discriminate]|].
    apply received_ok_inv in Hr. destruct Hr as (resp & f & Ha & Hs & Hb & ->).
    cbn [fill UploadImageResp_obj UploadImageErrCode UploadImageErrMessage ImageURL].
    destruct (errcode f =? WxWorkAppStatusOK) eqn:He; cbn [negb].
    + split; [congruence|]. intros _. exists r1, w1, f. apply Z.eqb_eq in He.
      repeat split. exists resp. repeat split; assumption.
    + unfold resetIfExpired, modify, ret.
      destruct (errcode f =? WxWorkCodeAccessTokenExpired);
        (split; [reflexivity|discriminate]).
  - intros fileBody fileName fileType.
    unfold UploadMedia, bind, ret. rewrite uploadFile_eq by reflexivity.
    destruct (checkToken (r, w)) as [[e|] [r1 w1]];
      [split; [split; reflexivity|discriminate]|].
    destruct (received "wxwork app request error, " zeroValue (answer (client r1) w1))
      as [v [e|]] eqn:Hr; [split; [split; reflexivity|discriminate]|].
    apply received_ok_inv in Hr. destruct Hr as (resp & f & Ha & Hs & Hb & ->).
    cbn [fill UploadMediaResp_obj UploadMediaErrCode UploadMediaErrMessage MediaID
           CreatedAt].
    destruct (errcode f =? WxWorkAppStatusOK) eqn:He; cbn [negb].
    + destruct (ParseInt (created_at f)) as [createdAt perr] eqn:Hp.
      split; [congruence|]. intros _. exists r1, w1, f. apply Z.eqb_eq in He.
      split; [reflexivity|]. split; [|split; [reflexivity|now rewrite Hp]].
      exists resp. repeat split; assumption.
    + unfold resetIfExpired, modify, ret.
      destruct (errcode f =? WxWorkCodeAccessTokenExpired);
        (split; [split; reflexivity|discriminate]).
Qed.

(** X8: [sendMessage] returns the decoded envelope next to its error.
    Whenever the answer has status 200 and a body that decodes, the
    response struct it returns is the document's, with the lists of
    invalid users, parties and tags, whether the code is 0 (no error) or
    not (the error of the rejection). *)
Theorem sendMessage_returns_the_envelope (messageObj : option GoValue)
  (r r1 : WxWorkApp) (w w1 : World) (resp : Response) (f : Fields) :
  checkToken (r, w) = (None, (r1, w1)) ->
  answer (client r1) w1 = inl resp ->
  StatusCode resp = 200 ->
  RespBody resp = Document f ->
  fst (sendMessage messageObj (r, w))
  = ({| MessageErrCode := errcode f; MessageErrMessage := errmsg f;
        InvalidUser := invaliduser f; InvalidParty := invalidparty f;
        InvalidTag := invalidtag f |},
     if errcode f =? 0 then None
     else Some (apiError "message" (errcode f) (errmsg f))).
Proof.
  intros Hc Ha Hs Hb. unfold sendMessage, bind, ret.
  rewrite fireRequest_eq by reflexivity. rewrite Hc. unfold received.
  rewrite Ha, Hs, Hb. change (negb (200 =? StatusOK)) with false. cbv beta iota.
  cbn [fill MessageResp_obj MessageErrCode MessageErrMessage].
  unfold WxWorkAppStatusOK. destruct (errcode f =? 0); cbn [negb]; [reflexivity|].
  unfold resetIfExpired, modify, ret.
  destruct (errcode f =? WxWorkCodeAccessTokenExpired); reflexivity.
Qed.

Lemma sendMessage_returns_the_envelope_witness :
  let f := {| errcode := 81013; errmsg := "user not in scope"; access_token := EmptyString;
              expires_in := 0; invaliduser := "bob|carol"; invalidparty := EmptyString;
              invalidtag := EmptyString; chatid := EmptyString; chat_info := zeroGroup;
              type_ := EmptyString; media_id := EmptyString;
              created_at := EmptyString; url := EmptyString |} in
  let res := fst (sendMessage textMessage (cachedApp, worldAt 50 [after 1 (okResponse f)])) in
  InvalidUser (fst res) = "bob|carol"
  /\ snd res = Some "call wxwork app message api error, 81013 user not in scope".
Proof.
  intros f res. subst res.
  rewrite (sendMessage_returns_the_envelope textMessage cachedApp cachedApp
             (worldAt 50 [after 1 (okResponse f)]) (worldAt 50 [after 1 (okResponse f)])
             (okResponse f) f eq_refl eq_refl eq_refl eq_refl).
  split; reflexivity.
Defined.

(** ** The requests of a call *)

Lemma sent_after_perform (op : Operation) (r : WxWorkApp) (w : World) :
  sent (snd (snd (perform op (r, w))))
  = (sent w
     ++ if usable r (now w) then [requestOf op (accessToken r)]
        else if credentialsOK r then
               match tokenOutcome (answer (client r) w) with
               | inl t => [tokenRequest r; requestOf op (AccessToken t)]
               | inr _ => [tokenRequest r]
               end
             else [])%list.
Proof.
  rewrite perform_dispatch, judged_world, dispatch_eq.
  destruct (usable r (now w)) eqn:Hu.
  - rewrite checkToken_usable by assumption. reflexivity.
  - rewrite checkToken_stale, refreshAccessToken_eq by assumption.
    unfold wrapRefresh. destruct (credentialsOK r) eqn:Hc.
    + rewrite requestToken_eq by assumption.
      destruct (tokenOutcome (answer (client r) w)) as [t|e]; cbn [fst snd].
      * rewrite !sent_exchanged, <- app_assoc. reflexivity.
      * apply sent_exchanged.
    + destruct (requestToken_bad_credentials r w Hc) as [e ->]. cbn [fst snd].
      now rewrite app_nil_r.
Qed.


(** X10: a token response with code 0 and an empty [access_token] is a
    successful refresh.  The operation's request goes out with an empty
    token, the application is left without a token, and the token block
    of every later call runs the refresh again. *)
Theorem empty_grant_is_sent_and_refreshed_again (op : Operation) (r : WxWorkApp)
  (w : World) (t : WxWorkAppTokenResp) :
  usable r (now w) = false ->
  credentialsOK r = true ->
  tokenOutcome (answer (client r) w) = inl t ->
  AccessToken t = EmptyString ->
  checkToken (r, w)
  = (None, (stored r t (now (exchanged (client r) (tokenRequest r) w)),
            exchanged (client r) (tokenRequest r) w))
  /\ sent (snd (snd (perform op (r, w))))
     = (sent w ++ [tokenRequest r; requestOf op EmptyString])%list
  /\ URL (requestOf op EmptyString)
     = endpoint op ++ "?" ++ Encode (queryOf EmptyString (paramsOf op))
  /\ accessToken (fst (snd (perform op (r, w)))) = EmptyString
  /\ (forall w', refreshes (fst (snd (perform op (r, w))), w')).
Proof.
  intros Hu Hc Ht He.
  assert (Hck : checkToken (r, w)
                = (None, (stored r t (now (exchanged (client r) (tokenRequest r) w)),
                          exchanged (client r) (tokenRequest r) w))).
  { rewrite checkToken_stale, refreshAccessToken_eq, requestToken_eq by assumption.
    rewrite Ht. reflexivity. }
  assert (Htok : accessToken (fst (snd (perform op (r, w)))) = EmptyString).
  { rewrite perform_outcome, Hck.
    destruct (envelopeOf (statusPrefix op)
                (answer (client (stored r t (now (exchanged (client r) (tokenRequest r) w))))
                        (exchanged (client r) (tokenRequest r) w))) as [[code msg] [e|]];
      cbn [judged fst snd]; [exact He|].
    destruct (code =? WxWorkAppStatusOK); cbn [fst snd]; [exact He|].
    destruct (code =? WxWorkCodeAccessTokenExpired); [reflexivity|exact He]. }
  split; [exact Hck|]. split; [|split; [reflexivity|split; [exact Htok|]]].
  - rewrite sent_after_perform, Hu, Hc, Ht, He. reflexivity.
  - intros w'. destruct (fst (snd (perform op (r, w)))) as [a c s cl tok ex] eqn:E.
    apply refreshes_empty. exact Htok.
Qed.

Lemma empty_grant_is_sent_and_refreshed_again_witness :
  let w := worldAt 0 [after 1 (okResponse (tokenFields 0 "ok" EmptyString 7200));
                      after 1 (okResponse (envelope 41001 "access_token missing"))] in
  map URL (sent (snd (snd (perform (OpSendMessage textMessage) (sampleApp, w)))))
  = map URL (sent w ++ [tokenRequest sampleApp;
                        requestOf (OpSendMessage textMessage) EmptyString])%list.
Proof.
  intros w. apply (f_equal (map URL)).
  refine (proj1 (proj2 (empty_grant_is_sent_and_refreshed_again
            (OpSendMessage textMessage) sampleApp w
            (fill (tokenFields 0 "ok" EmptyString 7200)) _ _ _ _))).
  - reflexivity.
  - vm_compute; reflexivity.
  - vm_compute; reflexivity.
  - reflexivity.
Defined.

(** ** What runs of calls keep *)

Lemma perform_bad_credentials (op : Operation) (r : WxWorkApp) (w : World) :
  accessToken r = EmptyString -> credentialsOK r = false ->
  exists e,
    perform op (r, w)
    = (Some ("refresh access token error, create request error, " ++ e), (r, w)).
Proof.
  intros Ht Hc. rewrite perform_outcome.
  pose proof (refreshes_empty r w Ht) as Hr. unfold refreshes in Hr. rewrite Hr.
  rewrite refreshAccessToken_eq.
  destruct (requestToken_bad_credentials r w Hc) as [e ->].
  exists e. reflexivity.
Qed.



Lemma checkToken_frame (r : WxWorkApp) (w : World) :
  let s' := snd (checkToken (r, w)) in
  (agentID (fst s') = agentID r /\ corpID (fst s') = corpID r
   /\ corpSecret (fst s') = corpSecret r /\ client (fst s') = client r)
  /\ now w <= now (snd s').
Proof.
  cbv zeta. destruct (usable r (now w)) eqn:Hu.
  - rewrite checkToken_usable by assumption. cbn. repeat split. lia.
  - rewrite checkToken_stale, refreshAccessToken_eq by assumption.
    pose proof (requestToken_app r w) as Happ.
    pose proof (requestToken_clock r w) as Hclock.
    unfold wrapRefresh.
    destruct (requestToken (r, w)) as [[t|e] [r1 w1]]; cbn [fst snd] in *; subst r1;
      repeat split; assumption.
Qed.

Lemma perform_frame (op : Operation) (s : WxWorkApp * World) :
  let s' := snd (perform op s) in
  (agentID (fst s') = agentID (fst s) /\ corpID (fst s') = corpID (fst s)
   /\ corpSecret (fst s') = corpSecret (fst s) /\ client (fst s') = client (fst s))
  /\ now (snd s) <= now (snd s').
Proof.
  cbv zeta. destruct s as [r w]. rewrite perform_outcome.
  pose proof (checkToken_frame r w) as Hf. cbv zeta in Hf.
  destruct (checkToken (r, w)) as [[e|] [r1 w1]]; cbn [fst snd] in *; [exact Hf|].
  destruct Hf as [Hid Hclock].
  pose proof (waited_nonneg (client r1) w1) as Hw.
  destruct (envelopeOf (statusPrefix op) (answer (client r1) w1)) as [[code msg] [e|]];
    cbn [judged fst snd]; rewrite ?now_exchanged.
  - split; [exact Hid|lia].
  - destruct (code =? WxWorkAppStatusOK); cbn [fst snd]; rewrite ?now_exchanged.
    + split; [exact Hid|lia].
    + destruct (code =? WxWorkCodeAccessTokenExpired); (split; [exact Hid|lia]).
Qed.

(** X12: what no run of calls and pauses does.  It never writes the
    agent id, the corporation id, the secret or the client of the
    application; it never takes a request back from the log of what
    was sent; and the clock never goes back. *)
Theorem runs_keep_identity_and_history (evs : list Event) (s : WxWorkApp * World) :
  let s' := snd (run evs s) in
  agentID (fst s') = agentID (fst s)
  /\ corpID (fst s') = corpID (fst s)
  /\ corpSecret (fst s') = corpSecret (fst s)
  /\ client (fst s') = client (fst s)
  /\ (exists more, sent (snd s') = (sent (snd s) ++ more)%list)
  /\ now (snd s) <= now (snd s').
Proof.
  cbv zeta. revert s. induction evs as [|[op|d] evs IH]; intros s.
  - cbn. repeat split. exists []. now rewrite app_nil_r. lia.
  - rewrite run_cons_call. specialize (IH (snd (perform op s))).
    destruct IH as (Ha & Hc & Hs & Hcl & [more Hmore] & Hn).
    pose proof (perform_frame op s) as [(Ha' & Hc' & Hs' & Hcl') Hn']. cbv zeta in *.
    repeat split; try congruence; [|lia].
    destruct s as [r w]. rewrite sent_after_perform in Hmore.
    rewrite Hmore, <- app_assoc. eexists. reflexivity.
  - rewrite run_cons_sleep. specialize (IH (snd (sleep d s))).
    destruct IH as (Ha & Hc & Hs & Hcl & [more Hmore] & Hn).
    cbn in *. repeat split; try assumption; [exists more; assumption|lia].
Qed.

(** ** The token block under any schedule and any server *)

Section AnySchedule.
Import Goroutines.

Lemma tick_keeps_LockInv (d : N) (c : Config) : LockInv c -> LockInv (tick d c).
Proof. intros H. exact H. Qed.

Lemma start_LockInv (n : nat) (r : WxWorkApp) (w : World) : LockInv (start n r w).
Proof.
  split; [|split].
  - intros i [pc [Hi Hin]]. cbn in Hi. apply lookup_replicate in Hi.
    destruct Hi as [-> _]. discriminate.
  - intros i j [pc [Hi Hin]]. cbn in Hi. apply lookup_replicate in Hi.
    destruct Hi as [-> _]. discriminate.
  - discriminate.
Qed.

Lemma exec_keeps_LockInv (sched : list Choice) (c c' : Config) :
  LockInv c -> exec sched c = Some c' -> LockInv c'.
Proof.
  revert c. induction sched as [|[i|d] sched IH]; intros c HL He; cbn [exec] in He.
  - inversion He; subst. exact HL.
  - destruct (step i c) as [c1|] eqn:Hs; [|discriminate].
    apply (IH c1); [|assumption]. eapply step_keeps_LockInv; eassumption.
  - apply (IH (tick d c)); [|assumption]. now apply tick_keeps_LockInv.
Qed.

Lemma weight_start (n : nat) (r : WxWorkApp) (w : World) :
  weight (start n r w) = (9 * n)%nat.
Proof.
  unfold weight, start. cbn [goroutines].
  induction n as [|n IH]; [reflexivity|].
  change (replicate (S n) AtCheck) with (AtCheck :: replicate n AtCheck).
  cbn [map]. change (sum_list (remaining AtCheck :: map remaining (replicate n AtCheck)))
    with (9 + sum_list (map remaining (replicate n AtCheck)))%nat.
  rewrite IH. lia.
Qed.

Lemma exec_weight (sched : list Choice) (c c' : Config) :
  exec sched c = Some c' -> (runs sched + weight c' <= weight c)%nat.
Proof.
  revert c. induction sched as [|[i|d] sched IH]; intros c He; cbn [exec] in He.
  - inversion He; subst. cbn. lia.
  - destruct (step i c) as [c1|] eqn:Hs; [|discriminate].
    apply step_weight in Hs. apply IH in He.
    change (runs (Run i :: sched)) with (S (runs sched)). lia.
  - apply IH in He. change (runs (Tick d :: sched)) with (runs sched).
    change (weight (tick d c)) with (weight c) in He. exact He.
Qed.

(** X13: the lock discipline of the token block holds whatever the
    token endpoint answers and however the goroutines are scheduled:
    the lock is held exactly while one goroutine is between [Lock] and
    [Unlock], and never two; no configuration is a deadlock, since the run
    can always go on until every goroutine has returned; and no
    goroutine takes more than nine steps, so that a schedule of [n]
    goroutines has at most [9 n] of them. *)
Theorem lock_discipline_under_any_schedule (n : nat) (r : WxWorkApp) (w : World)
  (sched : list Choice) (c : Config) :
  exec sched (start n r w) = Some c ->
  LockInv c
  /\ (exists sched' c', exec sched' c = Some c' /\ allReturned c' = true)
  /\ (runs sched <= 9 * n)%nat.
Proof.
  intros He.
  assert (HL : LockInv c) by (eapply exec_keeps_LockInv; [apply start_LockInv|eassumption]).
  split; [exact HL|]. split; [now apply every_caller_can_return|].
  apply exec_weight in He. rewrite weight_start in He. lia.
Qed.

Lemma lock_discipline_under_any_schedule_witness :
  LockInv grantedEnd /\ (runs grantedSchedule <= 9 * 2)%nat.
Proof.
  destruct (lock_discipline_under_any_schedule 2 sampleApp grantingWorld
              grantedSchedule grantedEnd) as (HL & _ & Hr).
  - vm_compute; reflexivity.
  - split; assumption.
Defined.

Lemma requestToken_fetches (r : WxWorkApp) (w : World) :
  (tokenFetches (snd (snd (requestToken (r, w)))) <= S (tokenFetches w))%nat.
Proof.
  destruct (credentialsOK r) eqn:Hc.
  - rewrite requestToken_eq by assumption. cbn [snd].
    rewrite tokenFetches_exchanged, isTokenRequest_tokenRequest. lia.
  - destruct (requestToken_bad_credentials r w Hc) as [e ->]. cbn [snd]. lia.
Qed.

Lemma step_fetches (i : nat) (c c' : Config) :
  step i c = Some c' ->
  (tokenFetches (world c') + sum_list (map mayFetch (goroutines c'))
   <= tokenFetches (world c) + sum_list (map mayFetch (goroutines c)))%nat.
Proof.
  unfold step. destruct (goroutines c !! i) as [pc|] eqn:Hi; [|discriminate].
  intros Hstep.
  assert (Hsum : forall pc',
            (sum_list (map mayFetch (<[i := pc']> (goroutines c))) + mayFetch pc
             = sum_list (map mayFetch (goroutines c)) + mayFetch pc')%nat)
    by (intros pc'; now apply sum_list_insert).
  destruct pc as [ | | | |resp|resp|err|[e|]| |out]; try discriminate.
  - destruct (fst (tokenMissingOrExpired (receiver c, world c)));
      inversion Hstep; subst c'; cbn [move world goroutines];
      match goal with |- context [<[i := ?p]> _] => specialize (Hsum p) end;
      cbn [mayFetch] in Hsum; lia.
  - destruct (locked c); [discriminate|].
    inversion Hstep; subst c'; cbn [move withLock world goroutines];
      match goal with |- context [<[i := ?p]> _] => specialize (Hsum p) end;
      cbn [mayFetch] in Hsum; lia.
  - destruct (fst (tokenMissingOrExpired (receiver c, world c)));
      inversion Hstep; subst c'; cbn [move world goroutines];
      match goal with |- context [<[i := ?p]> _] => specialize (Hsum p) end;
      cbn [mayFetch] in Hsum; lia.
  - pose proof (requestToken_fetches (receiver c) (world c)) as Hf.
    destruct (requestToken (receiver c, world c)) as [[resp|err] [r1 w1]];
      inversion Hstep; subst c'; cbn [move withWorld world goroutines snd] in *;
      match goal with |- context [<[i := ?p]> _] => specialize (Hsum p) end;
      cbn [mayFetch] in Hsum; lia.
  - inversion Hstep; subst c'; cbn [move withReceiver world goroutines];
      match goal with |- context [<[i := ?p]> _] => specialize (Hsum p) end;
      cbn [mayFetch] in Hsum; lia.
  - inversion Hstep; subst c'; cbn [move withReceiver world goroutines];
      match goal with |- context [<[i := ?p]> _] => specialize (Hsum p) end;
      cbn [mayFetch] in Hsum; lia.
  - inversion Hstep; subst c'; cbn [move withLock world goroutines];
      match goal with |- context [<[i := ?p]> _] => specialize (Hsum p) end;
      cbn [mayFetch] in Hsum; lia.
  - inversion Hstep; subst c'; cbn [move world goroutines];
      match goal with |- context [<[i := ?p]> _] => specialize (Hsum p) end;
      cbn [mayFetch] in Hsum; lia.
  - inversion Hstep; subst c'; cbn [move world goroutines];
      match goal with |- context [<[i := ?p]> _] => specialize (Hsum p) end;
      cbn [mayFetch] in Hsum; lia.
  - inversion Hstep; subst c'; cbn [move world goroutines];
      match goal with |- context [<[i := ?p]> _] => specialize (Hsum p) end;
      cbn [mayFetch] in Hsum; lia.
Qed.

Lemma exec_fetches (sched : list Choice) (c c' : Config) :
  exec sched c = Some c' ->
  (tokenFetches (world c') + sum_list (map mayFetch (goroutines c'))
   <= tokenFetches (world c) + sum_list (map mayFetch (goroutines c)))%nat.
Proof.
  revert c. induction sched as [|[i|d] sched IH]; intros c He; cbn [exec] in He.
  - inversion He; subst. lia.
  - destruct (step i c) as [c1|] eqn:Hs; [|discriminate].
    apply step_fetches in Hs. apply IH in He. lia.
  - apply IH in He. exact He.
Qed.

(** X14: no refresh storm.  Whatever the token endpoint answers and
    however [n] goroutines are scheduled through the token block, each
    of them calls the token endpoint at most once: at most [n] requests
    go to it. *)
Theorem at_most_one_fetch_per_goroutine (n : nat) (r : WxWorkApp) (w : World)
  (sched : list Choice) (c : Config) :
  exec sched (start n r w) = Some c ->
  (tokenFetches (world c) <= tokenFetches w + n)%nat.
Proof.
  intros He. apply exec_fetches in He. cbn [start world goroutines] in He.
  assert (Hn : sum_list (map mayFetch (replicate n AtCheck)) = n).
  { clear. induction n as [|n IH]; [reflexivity|].
    change (replicate (S n) AtCheck) with (AtCheck :: replicate n AtCheck).
    cbn [map]. change (sum_list (mayFetch AtCheck :: map mayFetch (replicate n AtCheck)))
      with (1 + sum_list (map mayFetch (replicate n AtCheck)))%nat.
    rewrite IH. lia. }
  rewrite Hn in He. lia.
Qed.

Lemma at_most_one_fetch_per_goroutine_witness :
  exists c,
    exec [Run 0; Run 0; Run 1; Run 0; Run 0; Run 0; Run 0;
          Run 1; Run 1; Run 1; Run 1; Run 1]%nat
         (start 2 sampleApp refusingWorld) = Some c
    /\ (tokenFetches (world c) <= tokenFetches refusingWorld + 2)%nat.
Proof.
  destruct (exec [Run 0; Run 0; Run 1; Run 0; Run 0; Run 0; Run 0;
                  Run 1; Run 1; Run 1; Run 1; Run 1]%nat
                 (start 2 sampleApp refusingWorld)) as [c|] eqn:He.
  - exists c. split; [reflexivity|].
    exact (at_most_one_fetch_per_goroutine 2 sampleApp refusingWorld _ c He).
  - vm_compute in He. discriminate He.
Defined.

End AnySchedule.

Section Alone.
Import Goroutines.

(** X15: the interleaving model agrees with the code run alone.  One
    goroutine, with nobody else, takes at most nine steps through the
    token block and ends where [checkToken] ends: the same
    application, the same world, the lock free, and as its outcome the
    error of [checkToken] or the token it then holds. *)
Theorem goroutine_alone_is_checkToken (r : WxWorkApp) (w : World) :
  exists k, (k <= 9)%nat
            /\ exec (repeat (Run 0) k) (start 1 r w) = Some (ranAlone (r, w)).
Proof.
  unfold ranAlone.
  pose proof (tokenMissingOrExpired_eq r w) as Hstale.
  destruct (usable r (now w)) eqn:Hu.
  - exists 2%nat. split; [lia|].
    rewrite checkToken_usable by assumption.
    cbn -[tokenMissingOrExpired requestToken]. rewrite Hstale.
    cbn -[tokenMissingOrExpired requestToken]. reflexivity.
  - rewrite checkToken_stale, refreshAccessToken_eq by assumption. unfold wrapRefresh.
    pose proof (requestToken_app r w) as Happ.
    destruct (requestToken (r, w)) as [[t|e] [r1 w1]] eqn:Hreq;
      cbn [fst snd] in Happ; subst r1.
    + exists 9%nat. split; [lia|].
      cbn -[tokenMissingOrExpired requestToken]. rewrite Hstale.
      cbn -[tokenMissingOrExpired requestToken]. rewrite Hstale.
      cbn -[tokenMissingOrExpired requestToken]. rewrite Hreq.
      cbn -[tokenMissingOrExpired requestToken]. reflexivity.
    + exists 6%nat. split; [lia|].
      cbn -[tokenMissingOrExpired requestToken]. rewrite Hstale.
      cbn -[tokenMissingOrExpired requestToken]. rewrite Hstale.
      cbn -[tokenMissingOrExpired requestToken]. rewrite Hreq.
      cbn -[tokenMissingOrExpired requestToken]. reflexivity.
Qed.

End Alone.

(** ** The creation time of an upload *)

Lemma digitsValue_acc (d : Decimal.uint) (p : positive) :
  digitsValue (Z.pos p) (NilEmpty.string_of_uint d) = Some (Z.pos (Pos.of_uint_acc d p)).
Proof.
  revert p. induction d as [|d IH|d IH|d IH|d IH|d IH|d IH|d IH|d IH|d IH|d IH];
    intros p; [reflexivity|..]; cbn [NilEmpty.string_of_uint digitsValue Pos.of_uint_acc];
    match goal with
    | |- context [digitOf ?c] =>
        let v := eval vm_compute in (digitOf c) in change (digitOf c) with v
    end; cbv beta iota;
    match goal with
    | |- digitsValue ?a _ = Some (Z.pos (Pos.of_uint_acc _ ?q)) =>
        replace a with (Z.pos q) by lia
    end; apply IH.
Qed.

Lemma digitsValue_of_uint (d : Decimal.uint) :
  digitsValue 0 (NilEmpty.string_of_uint d) = Some (Z.of_N (Pos.of_uint d)).
Proof.
  induction d as [|d IH|d IH|d IH|d IH|d IH|d IH|d IH|d IH|d IH|d IH];
    [reflexivity|exact IH|..];
    cbn [NilEmpty.string_of_uint digitsValue Pos.of_uint];
    match goal with
    | |- context [digitOf ?c] =>
        let v := eval vm_compute in (digitOf c) in change (digitOf c) with v
    end; cbv beta iota; cbn [Z.mul Z.add Z.of_N]; apply digitsValue_acc.
Qed.

Lemma digits_of_positive (p : positive) :
  exists c s, NilEmpty.string_of_uint (Pos.to_uint p) = String c s
              /\ digitOf c <> None
              /\ digitsValue 0 (String c s) = Some (Z.pos p).
Proof.
  pose proof (digitsValue_of_uint (Pos.to_uint p)) as Hv.
  rewrite DecimalPos.Unsigned.of_to in Hv. cbn [Z.of_N] in Hv.
  pose proof (DecimalPos.Unsigned.to_uint_nonnil p) as Hn.
  destruct (Pos.to_uint p) as [|d|d|d|d|d|d|d|d|d|d]; [contradiction|..];
    cbn [NilEmpty.string_of_uint] in *; eexists; eexists;
    (split; [reflexivity|split; [vm_compute; discriminate|exact Hv]]).
Qed.

(** A string that starts with a digit is read without a sign. *)
Lemma ParseInt_unsigned (c : ascii) (s : string) (v : Z) :
  digitOf c <> None -> digitsValue 0 (String c s) = Some v ->
  ParseInt (String c s)
  = if 2 ^ 63 <=? v then (2 ^ 63 - 1, Some (rangeError (String c s))) else (v, None).
Proof.
  intros Hc Hv. unfold ParseInt.
  assert (Hsign : match String c s with
                  | String "+" s' => (false, s')
                  | String "-" s' => (true, s')
                  | _ => (false, String c s)
                  end = (false, String c s)).
  { destruct c as [[] [] [] [] [] [] [] []]; try reflexivity;
      exfalso; apply Hc; vm_compute; reflexivity. }
  rewrite Hsign, Hv. cbn [negb andb]. reflexivity.
Qed.

Lemma ParseInt_negative (c : ascii) (s : string) (v : Z) :
  digitsValue 0 (String c s) = Some v ->
  ParseInt (String "-" (String c s))
  = if 2 ^ 63 <? v then (- 2 ^ 63, Some (rangeError (String "-" (String c s))))
    else (- v, None).
Proof.
  intros Hv. unfold ParseInt. rewrite Hv. cbn [negb andb]. reflexivity.
Qed.

(** [ParseInt] reads back what [%d] writes. *)
Lemma ParseInt_formatInt (z : Z) : inInt64 z -> ParseInt (formatInt z) = (z, None).
Proof.
  unfold inInt64, formatInt. intros Hz. destruct z as [|p|p].
  - reflexivity.
  - cbn [Z.to_int NilZero.string_of_int]. unfold NilZero.string_of_uint.
    pose proof (DecimalPos.Unsigned.to_uint_nonnil p) as Hn.
    destruct (digits_of_positive p) as (c & s & Hd & Hc & Hv).
    replace (match Pos.to_uint p with
             | Decimal.Nil => "0"
             | _ => NilEmpty.string_of_uint (Pos.to_uint p)
             end) with (String c s)
      by (rewrite <- Hd; destruct (Pos.to_uint p); [contradiction|reflexivity..]).
    rewrite (ParseInt_unsigned c s (Z.pos p) Hc Hv).
    destruct (2 ^ 63 <=? Z.pos p) eqn:E; [apply Z.leb_le in E; lia|reflexivity].
  - cbn [Z.to_int NilZero.string_of_int]. unfold NilZero.string_of_uint.
    pose proof (DecimalPos.Unsigned.to_uint_nonnil p) as Hn.
    destruct (digits_of_positive p) as (c & s & Hd & Hc & Hv).
    replace (match Pos.to_uint p with
             | Decimal.Nil => "0"
             | _ => NilEmpty.string_of_uint (Pos.to_uint p)
             end) with (String c s)
      by (rewrite <- Hd; destruct (Pos.to_uint p); [contradiction|reflexivity..]).
    rewrite (ParseInt_negative c s (Z.pos p) Hv).
    destruct (2 ^ 63 <? Z.pos p) eqn:E; [apply Z.ltb_lt in E; lia|reflexivity].
Qed.

(** X16: the creation time [UploadMedia] returns.  When the accepted
    document writes [created_at] as the decimal of an [int64], the
    result is that integer; when it writes digits that exceed the
    [int64] range, the result is the largest [int64], and when it writes
    nothing, or anything that does not start with a sign or a digit, 0:
    in all these cases with no error. *)
Theorem UploadMedia_creation_time (fileBody : list Byte.byte)
  (fileName fileType : string) (r r1 : WxWorkApp) (w w1 : World) (f : Fields) :
  checkToken (r, w) = (None, (r1, w1)) ->
  accepted (answer (client r1) w1) f ->
  (forall z, inInt64 z -> created_at f = formatInt z ->
     fst (UploadMedia fileBody fileName fileType (r, w)) = (media_id f, z, None))
  /\ (forall c s v, created_at f = String c s -> digitOf c <> None ->
        digitsValue 0 (String c s) = Some v -> 2 ^ 63 <= v ->
        fst (UploadMedia fileBody fileName fileType (r, w))
        = (media_id f, 2 ^ 63 - 1, None))
  /\ (forall c s, created_at f = String c s -> digitOf c = None ->
        c <> "+"%char -> c <> "-"%char ->
        fst (UploadMedia fileBody fileName fileType (r, w)) = (media_id f, 0, None))
  /\ (created_at f = EmptyString ->
      fst (UploadMedia fileBody fileName fileType (r, w)) = (media_id f, 0, None)).
Proof.
  intros Hc (resp & Ha & Hs & Hb & He).
  assert (Hup : fst (UploadMedia fileBody fileName fileType (r, w))
                = (media_id f, fst (ParseInt (created_at f)), None))
    by (eapply UploadMedia_accepted; eassumption).
  rewrite Hup. split; [|split; [|split]]; [| | |intros Hf; now rewrite Hf].
  - intros z Hz Hf. now rewrite Hf, ParseInt_formatInt.
  - intros c s v Hf Hd Hv Hbig. rewrite Hf, (ParseInt_unsigned c s v Hd Hv).
    destruct (2 ^ 63 <=? v) eqn:E; [reflexivity|apply Z.leb_gt in E; lia].
  - intros c s Hf Hd Hplus Hminus. rewrite Hf. unfold ParseInt.
    assert (Hsign : match String c s with
                    | String "+" s' => (false, s')
                    | String "-" s' => (true, s')
                    | _ => (false, String c s)
                    end = (false, String c s)).
    { destruct c as [[] [] [] [] [] [] [] []]; try reflexivity; congruence. }
    rewrite Hsign. cbn [digitsValue]. rewrite Hd. reflexivity.
Qed.

Lemma UploadMedia_creation_time_witness :
  fst (UploadMedia [] "clip.mp4" "video"
         (cachedApp, worldAt 50 [after 1 (okResponse (mediaFields "m1" "1614000000"))]))
  = ("m1", 1614000000, None).
Proof.
  refine (proj1 (UploadMedia_creation_time [] "clip.mp4" "video" cachedApp cachedApp
            (worldAt 50 [after 1 (okResponse (mediaFields "m1" "1614000000"))])
            (worldAt 50 [after 1 (okResponse (mediaFields "m1" "1614000000"))])
            (mediaFields "m1" "1614000000") eq_refl _) 1614000000 _ _).
  - exists (okResponse (mediaFields "m1" "1614000000")). repeat split.
  - unfold inInt64; split; [apply Z.leb_le | apply Z.ltb_lt]; vm_compute; reflexivity.
  - reflexivity.
Defined.

(** ** The URLs of the requests *)

Lemma QueryEscape_queryBytes (s : string) : allBytes queryByte (QueryEscape s) = true.
Proof.
  induction s as [|c s IH]; [reflexivity|].
  destruct c as [[] [] [] [] [] [] [] []]; cbn -[allBytes QueryEscape] in *;
    cbn [QueryEscape allBytes]; simpl; rewrite ?IH; reflexivity.
Qed.

(** X17: the request of an operation issued with a usable token.  One
    request is sent, a GET for [GetGroupChat] and a POST for the others,
    to the endpoint of the operation; its query starts with
    [access_token] and the cached token, followed by [chatid] for
    [GetGroupChat] and by [type] for [UploadMedia]; the token and the
    parameter are escaped, so that whatever bytes they hold, what
    stands for them in the URL is made of letters, digits, [-_.~], [%]
    and [+] only, and cannot open another parameter. *)
Theorem request_of_an_operation (op : Operation) (r : WxWorkApp) (w : World) :
  usable r (now w) = true ->
  exists req,
    sent (snd (snd (perform op (r, w)))) = (sent w ++ [req])%list
    /\ Method req = match op with OpGetGroupChat _ => "GET" | _ => "POST" end
    /\ URL req
       = endpoint op ++ "?access_token="
         ++ match op with
            | OpGetGroupChat chatID =>
                QueryEscape (accessToken r) ++ "&chatid=" ++ QueryEscape chatID
            | OpUploadMedia _ _ fileType =>
                QueryEscape (accessToken r) ++ "&type=" ++ QueryEscape fileType
            | _ => QueryEscape (accessToken r)
            end
    /\ allBytes queryByte (QueryEscape (accessToken r)) = true
    /\ (forall value, allBytes queryByte (QueryEscape value) = true).
Proof.
  intros Hu. exists (requestOf op (accessToken r)).
  split; [rewrite sent_after_perform, Hu; reflexivity|].
  split; [destruct op; reflexivity|].
  split; [destruct op; reflexivity|].
  split; [apply QueryEscape_queryBytes|]. intros value. apply QueryEscape_queryBytes.
Qed.

Lemma request_of_an_operation_witness :
  exists req,
    sent (snd (snd (perform (OpUploadMedia [] "clip.mp4" "a&b=c")
                      (setAccessToken cachedApp "t k/1", worldAt 50 []))))
    = [req]
    /\ URL req
       = "https://qyapi.weixin.qq.com/cgi-bin/media/upload?access_token=t+k%2F1&type=a%26b%3Dc".
Proof.
  destruct (request_of_an_operation (OpUploadMedia [] "clip.mp4" "a&b=c")
              (setAccessToken cachedApp "t k/1") (worldAt 50 []) eq_refl)
    as (req & Hs & _ & Hurl & _).
  exists req. split; [exact Hs|]. rewrite Hurl. vm_compute. reflexivity.
Defined.

(** ** Construction and the first call *)


